(** * go-backup-docker-image: a shallow embedding of [main.go]

    The development follows the layout of the program:
    - [GoStrings], [GoTime], [GoPath]: the parts of Go's standard library
      that [main.go] calls on strings, times and paths;
    - the data model ([Config], [ImageInfo]) and the world the program runs
      in (file system, console, subprocesses, docker engine);
    - the naming step and the two per-item pipelines ([backupImage],
      [restoreImage]);
    - the command prologues ([runBackup], [runRestore]);
    - the semaphore-gated fan-out loop shared by both commands, as an
      interleaving step relation;
    - the catalog listing ([runList]).

    Go strings are byte sequences and are modelled by [string]; Go maps are
    modelled by [gmap]; [int] and [int64] values by [Z]. *)

From Stdlib Require Import ZArith Ascii String DecimalString DecimalN.
From stdpp Require Import gmap strings list fin_maps.

(** ** Go's [strings] package *)
Module GoStrings.

(** [len(s)]. *)
Definition len (s : string) : nat := String.length s.

(** [strings.HasSuffix]:
    [len(s) >= len(suffix) && s[len(s)-len(suffix):] == suffix]. *)
Definition HasSuffix (s suffix : string) : bool :=
  (len suffix <=? len s) &&
  String.eqb (String.substring (len s - len suffix) (len suffix) s) suffix.

(** [strings.TrimSuffix]: [s] without the trailing [suffix], or [s]. *)
Definition TrimSuffix (s suffix : string) : string :=
  if HasSuffix s suffix
  then String.substring 0 (len s - len suffix) s
  else s.

(** [strings.ReplaceAll s old new] for a non-empty [old]: the matches are
    found from left to right and do not overlap.  [skip] counts the bytes of
    a match that are still to be dropped.  (For an empty [old] Go inserts
    [new] around every rune; [main.go] never does that.) *)
Fixpoint replace_go (old new : string) (skip : nat) (s : string) : string :=
  match s with
  | EmptyString => EmptyString
  | String c s' =>
      match skip with
      | S k => replace_go old new k s'
      | O =>
          if String.prefix old s
          then new +:+ replace_go old new (len old - 1) s'
          else String c (replace_go old new 0 s')
      end
  end.

Definition ReplaceAll (s old new : string) : string := replace_go old new 0 s.

(** [strings.Join]. *)
Fixpoint Join (elems : list string) (sep : string) : string :=
  match elems with
  | [] => ""
  | [e] => e
  | e :: rest => e +:+ sep +:+ Join rest sep
  end.

(** [strings.Split(s, "/")], the only separator [filepath.Clean] cares
    about on Unix. *)
Fixpoint split_slash (s : string) : list string :=
  match s with
  | EmptyString => [""]
  | String c s' =>
      if Ascii.eqb c "/"
      then "" :: split_slash s'
      else match split_slash s' with
           | [] => [String c ""]
           | w :: ws => String c w :: ws
           end
  end.

(** [strings.Contains] for a one-byte pattern. *)
Fixpoint contains_byte (c : ascii) (s : string) : bool :=
  match s with
  | EmptyString => false
  | String d s' => Ascii.eqb d c || contains_byte c s'
  end.

End GoStrings.
Import GoStrings.

(** ** Go's [time] package: what [Format("20060102-150405")] needs *)
Module GoTime.

(** A wall-clock reading.  Years are those of the Common Era. *)
Record Time := mkTime {
  Year : N; Month : N; Day : N;
  Hour : N; Minute : N; Second : N
}.

(** A reading whose calendar fields are in their ranges, with a year of at
    most four digits. *)
Definition valid (t : Time) : Prop :=
  (Year t <= 9999 /\ 1 <= Month t <= 12 /\ 1 <= Day t <= 31 /\
   Hour t <= 23 /\ Minute t <= 59 /\ Second t <= 59)%N.

Definition decimal (n : N) : string :=
  NilEmpty.string_of_uint (N.to_uint n).

Fixpoint zeros (n : nat) : string :=
  match n with O => "" | S k => String "0" (zeros k) end.

(** [appendInt(b, x, width)]: decimal, left-padded with zeros to [width]. *)
Definition appendInt (x : N) (width : nat) : string :=
  zeros (width - String.length (decimal x)) +:+ decimal x.

(** [t.Format("20060102-150405")]. *)
Definition Format_20060102_150405 (t : Time) : string :=
  appendInt (Year t) 4 +:+ appendInt (Month t) 2 +:+ appendInt (Day t) 2 +:+
  "-" +:+
  appendInt (Hour t) 2 +:+ appendInt (Minute t) 2 +:+ appendInt (Second t) 2.

End GoTime.
Import GoTime.

(** ** Go's [path/filepath] package on Unix *)
Module GoPath.

(** One element of the path being cleaned; [stack] holds the elements kept
    so far, innermost first.  Empty and [.] elements vanish, [..] removes the
    element before it, is dropped at the root, and is kept at the start of a
    relative path. *)
Definition clean_step (rooted : bool) (stack : list string) (c : string)
  : list string :=
  if String.eqb c "" || String.eqb c "." then stack
  else if String.eqb c ".." then
    match stack with
    | top :: rest =>
        if String.eqb top ".."
        then (if rooted then stack else c :: stack)
        else rest
    | [] => if rooted then [] else [c]
    end
  else c :: stack.

(** The elements of [path] that survive cleaning, outermost first. *)
Definition elements (rooted : bool) (path : string) : list string :=
  rev (fold_left (clean_step rooted) (split_slash path) []).

(** [filepath.Clean]. *)
Definition Clean (path : string) : string :=
  if String.eqb path "" then "."
  else
    let rooted := String.prefix "/" path in
    let body := GoStrings.Join (elements rooted path) "/" in
    if rooted then "/" +:+ body
    else if String.eqb body "" then "." else body.

(** [filepath.Join]: empty elements are ignored, the rest is joined with
    [/] and cleaned; the result is empty when every element is. *)
Fixpoint Join (elem : list string) : string :=
  match elem with
  | [] => ""
  | e :: rest =>
      if String.eqb e "" then Join rest
      else Clean (GoStrings.Join elem "/")
  end.

End GoPath.

(** ** Data model *)

(** [type Config struct], the process-wide settings read by every command. *)
Module Config.
Record t := mk {
  BackupDir : string;
  MaxWorkers : Z;
  Verbose : bool;
  CompressType : string
}.
End Config.

(** [type ImageInfo struct], the sidecar record. *)
Module ImageInfo.
Record t := mk {
  ImageName : string;
  ImageID : string;
  Tags : list string;
  Size : Z;
  BackupDate : Time;
  CompressType : string
}.
End ImageInfo.

(** The fields of docker's [types.ImageInspect] that [backupImage] reads. *)
Module ImageInspect.
Record t := mk { ID : string; RepoTags : list string; Size : Z }.
End ImageInspect.

(** [os.FileInfo]: the attributes [runList] prints. *)
Module FileInfo.
Record t := mk { Size : Z; ModTime : Time }.
End FileInfo.

(** [os.DirEntry]: [Info] is [None] when [file.Info()] returns an error. *)
Module DirEntry.
Record t := mk { Name : string; IsDir : bool; Info : option FileInfo.t }.
End DirEntry.

(** What [os.Stat] followed by [os.ReadDir] finds at the backup directory. *)
Inductive DirResult :=
| DirNotExist
| DirReadError
| DirEntries (files : list DirEntry.t).

(** [exec.Command(name, args...)]. *)
Inductive Cmd := Command (name : string) (args : list string).

(** A file of the flat file system: whether [os.Open] succeeds on it, and
    its bytes. *)
Record File := mkFile { readable : bool; data : string }.

(** Lines written to standard output. *)
Inductive Out :=
| StartingBackup (imageName : string)
| SavingImage (imageName tarballName : string) (gzip : bool)
| BackedUp (imageName tarballName : string)
| AllBackupsCompleted
| StartingRestore (tarballPath : string)
| LoadingImage (tarballPath : string) (compressed : bool)
| Restored (tarballPath : string)
| DockerOutput (output : string)
| AllRestoresCompleted
| DirectoryMissing (dir : string)
| NoBackupsFound
| ListHeader
| ListRule
| BackupLine (name : string)
| SizeLine (bytes : Z)
| DateLine (modTime : Time)
| ImageLine (imageName : string)
| TagsLine (tags : list string)
| IDLine (imageID : string)
| CompressionLine (compressType : string)
| BlankLine.

(** Messages of the [log] package. *)
Inductive Report :=
| ErrorInspecting (imageName : string)
| FailedToSave (imageName : string)
| FailedToCreateMetadata (imageName : string)
| FailedToWriteMetadata (imageName : string)
| FailedToLoad (tarballPath output : string)
| ErrorReadingStdin
| ErrorOpeningFile (file : string)
| ErrorReadingFile
| NoImageNames
| NoTarballPaths
| FailedToCreateBackupDir
| FailedToCreateClient
| FailedToReadBackupDir.

(** What the process does to the outside, in program order. *)
Inductive Event :=
| Print (o : Out)
| LogPrintf (r : Report)
| LogFatal (r : Report)
| MkdirAll (dir : string)
| Run (c : Cmd).

(** The state a command runs in and changes. *)
Record World := mkWorld {
  fs : gmap string File;
  ticks : nat;
  trace : list Event
}.

(** Everything the program asks of its collaborators: the rest of Go's
    standard library, the operating system, subprocesses and the docker
    engine.  None of it is code of this repository. *)
Record Env := mkEnv {
  strings_TrimSpace : string -> string;
  (** [bufio.Scanner]: the lines of an input, and whether [Err()] is set. *)
  bufio_Scan : string -> list string * bool;
  (** [json.NewDecoder(f).Decode(&imageInfo)]; [None] is an error. *)
  json_Decode : string -> option ImageInfo.t;
  (** The bytes [json.Encoder.Encode] produces with [SetIndent]. *)
  json_Encode : ImageInfo.t -> string;
  (** [time.Now()] at the n-th reading of the clock. *)
  clock : nat -> Time;
  stdin_data : string;
  (** Does [os.MkdirAll] fail? *)
  mkdir_fails : gmap string File -> string -> bool;
  (** Does [os.Create] fail? *)
  create_fails : gmap string File -> string -> bool;
  (** Does writing these bytes to that file fail? *)
  write_fails : gmap string File -> string -> string -> bool;
  read_dir : string -> DirResult;
  (** A subprocess: success, combined output, and the file system after. *)
  exec : Cmd -> gmap string File -> bool * string * gmap string File;
  new_client_fails : bool;
  (** [cli.ImageInspectWithRaw]; [None] is an error. *)
  ImageInspectWithRaw : string -> option ImageInspect.t
}.

(** ** Effects: a state monad over [World] in which [log.Fatal] exits *)

Inductive Result (A : Type) :=
| Ok (a : A)
| Exit (code : Z).
Arguments Ok {A} a.
Arguments Exit {A} code.

Definition M (A : Type) : Type := World -> Result A * World.

#[global] Instance M_ret : MRet M := fun A (a : A) w => (Ok a, w).

#[global] Instance M_bind : MBind M :=
  fun A B (k : A -> M B) (m : M A) w =>
    match m w with
    | (Ok a, w') => k a w'
    | (Exit c, w') => (Exit c, w')
    end.

Definition emit (e : Event) : M unit :=
  fun w => (Ok tt, mkWorld (fs w) (ticks w) (trace w ++ [e])).

Definition emit_all (es : list Event) : M unit :=
  fun w => (Ok tt, mkWorld (fs w) (ticks w) (trace w ++ es)).

(** [log.Fatal], [log.Fatalf]: print, then [os.Exit(1)]. *)
Definition log_Fatal {A} (r : Report) : M A :=
  fun w => (Exit 1, mkWorld (fs w) (ticks w) (trace w ++ [LogFatal r])).

Definition when (b : bool) (m : M unit) : M unit := if b then m else mret tt.

Section Primitives.
Variable env : Env.

Definition time_Now : M Time :=
  fun w => (Ok (clock env (ticks w)), mkWorld (fs w) (S (ticks w)) (trace w)).

(** [os.Stat(path)] returns no error. *)
Definition os_Stat (path : string) : M bool :=
  fun w => (Ok (bool_decide (is_Some (fs w !! path))), w).

(** [os.Open(path)]: the bytes behind the handle, or [None] on error. *)
Definition open_file (files : gmap string File) (path : string)
  : option string :=
  match files !! path with
  | Some f => if readable f then Some (data f) else None
  | None => None
  end.

Definition os_Open (path : string) : M (option string) :=
  fun w => (Ok (open_file (fs w) path), w).

(** [os.Create(path)]: creates or truncates; [true] when it succeeds. *)
Definition os_Create (path : string) : M bool :=
  fun w =>
    if create_fails env (fs w) path then (Ok false, w)
    else (Ok true, mkWorld (<[path := mkFile true ""]> (fs w)) (ticks w) (trace w)).

(** [encoder.Encode(imageInfo)] on the file just created. *)
Definition Encode (path : string) (info : ImageInfo.t) : M bool :=
  fun w =>
    let bytes := json_Encode env info in
    if write_fails env (fs w) path bytes then (Ok false, w)
    else (Ok true, mkWorld (<[path := mkFile true bytes]> (fs w)) (ticks w) (trace w)).

(** [os.MkdirAll(dir, 0755)]. *)
Definition os_MkdirAll (dir : string) : M bool :=
  fun w =>
    if mkdir_fails env (fs w) dir then (Ok false, w)
    else (Ok true, mkWorld (fs w) (ticks w) (trace w ++ [MkdirAll dir])).

(** [cmd.Run()] and [cmd.CombinedOutput()]. *)
Definition cmd_CombinedOutput (c : Cmd) : M (bool * string) :=
  fun w =>
    let '(ok, output, fs') := exec env c (fs w) in
    (Ok (ok, output), mkWorld fs' (ticks w) (trace w ++ [Run c])).

Definition cmd_Run (c : Cmd) : M bool :=
  r ← cmd_CombinedOutput c; mret (fst r).

End Primitives.

(** ** The naming step of [backupImage] (lines 195-202 and 233) *)

Definition safeImageName (imageName : string) : string :=
  ReplaceAll (ReplaceAll imageName "/" "_") ":" "_".

Definition is_gzip (compressType : string) : bool :=
  String.eqb compressType "gzip".

Definition tarballName (cfg : Config.t) (imageName : string) (now : Time)
  : string :=
  let timestamp := Format_20060102_150405 now in
  let tarballName :=
    GoPath.Join [Config.BackupDir cfg;
                 safeImageName imageName +:+ "-" +:+ timestamp +:+ ".tar"] in
  if is_gzip (Config.CompressType cfg)
  then tarballName +:+ ".gz"
  else tarballName.

Definition metadataPath (tarballName : string) : string :=
  tarballName +:+ ".json".

(** ** The per-item pipelines *)
Section Pipelines.
Variables (config : Config.t) (env : Env).

(** The subprocess [backupImage] starts (lines 204-212). *)
Definition saveCommand (imageName tarballName : string) : Cmd :=
  if is_gzip (Config.CompressType config)
  then Command "sh"
         ["-c"; "docker save " +:+ imageName +:+ " | gzip > " +:+ tarballName]
  else Command "docker" ["save"; "-o"; tarballName; imageName].

(** [backupImage] (lines 184-249).  Every [return] of the source is the end
    of a branch here. *)
Definition backupImage (imageName : string) : M unit :=
  when (Config.Verbose config) (emit (Print (StartingBackup imageName)));;
  match ImageInspectWithRaw env imageName with
  | None => emit (LogPrintf (ErrorInspecting imageName))
  | Some img =>
      now ← time_Now env;
      let tarballName := tarballName config imageName now in
      emit (Print (SavingImage imageName tarballName
                     (is_gzip (Config.CompressType config))));;
      saved ← cmd_Run env (saveCommand imageName tarballName);
      if negb saved then emit (LogPrintf (FailedToSave imageName))
      else
        backupDate ← time_Now env;
        let imageInfo :=
          ImageInfo.mk imageName (ImageInspect.ID img)
            (ImageInspect.RepoTags img) (ImageInspect.Size img)
            backupDate (Config.CompressType config) in
        let metadataPath := metadataPath tarballName in
        created ← os_Create env metadataPath;
        if negb created
        then emit (LogPrintf (FailedToCreateMetadata imageName))
        else
          written ← Encode env metadataPath imageInfo;
          if negb written
          then emit (LogPrintf (FailedToWriteMetadata imageName))
          else emit (Print (BackedUp imageName tarballName))
  end.

(** The value of [compressed] when [restoreImage] reaches line 339
    (lines 316-337). *)
Definition detectCompressed (tarballPath : string) : M bool :=
  let metadataPath := tarballPath +:+ ".json" in
  if HasSuffix tarballPath ".tar.gz" || HasSuffix tarballPath ".tgz"
  then mret true
  else
    found ← os_Stat metadataPath;
    if (found : bool) then
      metadataFile ← os_Open metadataPath;
      match metadataFile with
      | Some bytes =>
          match json_Decode env bytes with
          | Some imageInfo => mret (is_gzip (ImageInfo.CompressType imageInfo))
          | None => mret false
          end
      | None => mret false
      end
    else mret false.

(** The subprocess [restoreImage] starts (lines 339-347). *)
Definition loadCommand (tarballPath : string) (compressed : bool) : Cmd :=
  if compressed
  then Command "sh" ["-c"; "gunzip -c " +:+ tarballPath +:+ " | docker load"]
  else Command "docker" ["load"; "-i"; tarballPath].

(** [restoreImage] (lines 311-357). *)
Definition restoreImage (tarballPath : string) : M unit :=
  when (Config.Verbose config) (emit (Print (StartingRestore tarballPath)));;
  compressed ← detectCompressed tarballPath;
  emit (Print (LoadingImage tarballPath compressed));;
  loaded ← cmd_CombinedOutput env (loadCommand tarballPath compressed);
  if negb (fst loaded)
  then emit (LogPrintf (FailedToLoad tarballPath (snd loaded)))
  else
    emit (Print (Restored tarballPath));;
    emit (Print (DockerOutput (snd loaded))).

(** ** The command prologues *)

(** The flags [--file] and [--stdin]. *)
Record Flags := mkFlags { file : string; stdin : bool }.

(** The scanning loops: every line is trimmed and kept when not empty. *)
Definition scanNames (input : string) : list string * bool :=
  let scanned := bufio_Scan env input in
  (filter (fun name : string => name <> "") (strings_TrimSpace env <$> fst scanned),
   snd scanned).

(** Lines 109-146 of [runBackup] and 252-287 of [runRestore], which differ
    in the names of their variables only. *)
Definition resolveInput (flags : Flags) (args : list string)
  : M (list string) :=
  if stdin flags then
    let scanned := scanNames (stdin_data env) in
    if snd scanned then log_Fatal ErrorReadingStdin else mret (fst scanned)
  else if negb (String.eqb (file flags) "") then
    opened ← os_Open (file flags);
    match opened with
    | None => log_Fatal (ErrorOpeningFile (file flags))
    | Some bytes =>
        let scanned := scanNames bytes in
        if snd scanned then log_Fatal ErrorReadingFile else mret (fst scanned)
    end
  else mret args.

(** [runBackup] up to the fan-out loop (lines 108-162): the work items. *)
Definition runBackup_setup (flags : Flags) (args : list string)
  : M (list string) :=
  imageNames ← resolveInput flags args;
  if (length imageNames =? 0)%nat then log_Fatal NoImageNames
  else
    made ← os_MkdirAll env (Config.BackupDir config);
    if negb made then log_Fatal FailedToCreateBackupDir
    else if new_client_fails env then log_Fatal FailedToCreateClient
    else mret imageNames.

(** [runRestore] up to the fan-out loop (lines 251-291). *)
Definition runRestore_setup (flags : Flags) (args : list string)
  : M (list string) :=
  tarballPaths ← resolveInput flags args;
  if (length tarballPaths =? 0)%nat then log_Fatal NoTarballPaths
  else mret tarballPaths.

End Pipelines.

(** ** The fan-out loop of [runBackup] (lines 164-180) and [runRestore]
    (lines 293-308)

    The two loops are the same code around a different task.  The main
    goroutine ranges over the items; for each it adds one to the wait group,
    sends a token into the buffered channel (which blocks while the channel
    holds [MaxWorkers] tokens) and starts a goroutine.  The goroutine calls
    the task; its deferred calls then run last-in first-out: the token is
    received back, then the wait group is decremented.  After the loop the
    main goroutine waits for the wait group to reach zero and prints its
    notice.  Every line is one atomic step of the interleaving.

    A call of the task spans two steps, its start and its return, and what
    it does to the world is applied whole at the return.  That is exact for
    the calls, their order and their number at every limit, and for the
    world when no two calls overlap (a limit of one).  When calls overlap,
    the events and file writes of two pipelines may interleave in ways this
    record of the world does not show: the [world] field then tells which
    calls have returned, not the order of their single events. *)
Module Orchestrator.
Section Batch.
Context {Item W : Type}.
Variables (task : Item -> W -> W) (notice : W -> W).
Variables (items : list Item) (limit : Z).

(** Where the main goroutine stands; [item] is the loop variable and [rest]
    the items the [range] has still to visit. *)
Inductive MainPC :=
| AtAdd (item : Item) (rest : list Item)
| AtSend (item : Item) (rest : list Item)
| AtGo (item : Item) (rest : list Item)
| AtWait
| AtEnd.

(** Where a spawned goroutine stands. *)
Inductive Goroutine :=
| Spawned
| InTask
| TaskReturned
| SlotReleased
| Finished.

Record State := mkState {
  main : MainPC;
  (** The goroutines in the order they were started, each with the
      argument it was given. *)
  workers : list (Item * Goroutine);
  (** Tokens in the channel [semaphore]. *)
  slots : nat;
  (** The counter of the wait group. *)
  waiting : Z;
  (** The goroutines whose call of the task has started, in that order. *)
  invoked : list nat;
  (** The goroutines whose call of the task has returned, in that order. *)
  completed : list nat;
  world : W
}.

Definition loop (todo : list Item) : MainPC :=
  match todo with
  | item :: rest => AtAdd item rest
  | [] => AtWait
  end.

Definition init (w : W) : State := mkState (loop items) [] 0 0 [] [] w.

Inductive step : State -> State -> Prop :=
(* lines 169, 297: wg.Add(1) *)
| step_add item rest ws sl wg inv cp w :
    step (mkState (AtAdd item rest) ws sl wg inv cp w)
         (mkState (AtSend item rest) ws sl (wg + 1) inv cp w)
(* lines 170, 298: semaphore <- struct{}{}, possible while the channel
   holds fewer than [limit] tokens *)
| step_send item rest ws sl wg inv cp w :
    (Z.of_nat sl < limit)%Z ->
    step (mkState (AtSend item rest) ws sl wg inv cp w)
         (mkState (AtGo item rest) ws (S sl) wg inv cp w)
(* lines 171-176, 299-304: go func(img string) {...}(imageName), then the
   next turn of the range *)
| step_go item rest ws sl wg inv cp w :
    step (mkState (AtGo item rest) ws sl wg inv cp w)
         (mkState (loop rest) (ws ++ [(item, Spawned)]) sl wg inv cp w)
(* lines 179-180, 307-308: wg.Wait() returns when the counter is zero, and
   the notice is printed *)
| step_wait ws sl inv cp w :
    step (mkState AtWait ws sl 0 inv cp w)
         (mkState AtEnd ws sl 0 inv cp (notice w))
(* lines 175, 303: the goroutine calls the task *)
| step_invoke k item pc ws sl wg inv cp w :
    ws !! k = Some (item, Spawned) ->
    step (mkState pc ws sl wg inv cp w)
         (mkState pc (<[k := (item, InTask)]> ws) sl wg (inv ++ [k]) cp w)
(* the task returns; its effect on the world is taken at this point *)
| step_return k item pc ws sl wg inv cp w :
    ws !! k = Some (item, InTask) ->
    step (mkState pc ws sl wg inv cp w)
         (mkState pc (<[k := (item, TaskReturned)]> ws) sl wg inv (cp ++ [k])
            (task item w))
(* lines 173, 301: the deferred <-semaphore, possible while the channel
   holds a token *)
| step_release k item pc ws sl wg inv cp w :
    ws !! k = Some (item, TaskReturned) ->
    step (mkState pc ws (S sl) wg inv cp w)
         (mkState pc (<[k := (item, SlotReleased)]> ws) sl wg inv cp w)
(* lines 172, 300: the deferred wg.Done() *)
| step_done k item pc ws sl wg inv cp w :
    ws !! k = Some (item, SlotReleased) ->
    step (mkState pc ws sl wg inv cp w)
         (mkState pc (<[k := (item, Finished)]> ws) sl (wg - 1) inv cp w).

Definition reachable (w : W) (s : State) : Prop := rtc step (init w) s.

(** Counting goroutines by where they stand. *)
Fixpoint count (p : Goroutine -> bool) (ws : list (Item * Goroutine)) : nat :=
  match ws with
  | [] => 0
  | g :: ws' => (if p (snd g) then 1 else 0) + count p ws'
  end.

Definition in_task (g : Goroutine) : bool :=
  match g with InTask => true | _ => false end.

Definition holds_slot (g : Goroutine) : bool :=
  match g with Spawned | InTask | TaskReturned => true | _ => false end.

Definition pending (g : Goroutine) : bool :=
  match g with Finished => false | _ => true end.

Definition was_invoked (g : Goroutine) : bool :=
  match g with Spawned => false | _ => true end.

Definition has_returned (g : Goroutine) : bool :=
  match g with Spawned | InTask => false | _ => true end.

(** The number of calls of the task that have started and not returned. *)
Definition in_flight (s : State) : nat := count in_task (workers s).

(** The effect of the calls that returned, in the order they returned. *)
Definition effects (w : W) (returned : list nat) : W :=
  foldl (fun w k => match items !! k with
                    | Some item => task item w
                    | None => w
                    end) w returned.




(** What the main goroutine contributes to the channel and to the wait
    group, and the items it has still to start. *)
Definition main_slot (pc : MainPC) : nat :=
  match pc with AtGo _ _ => 1 | _ => 0 end.

Definition main_wait (pc : MainPC) : Z :=
  match pc with AtSend _ _ | AtGo _ _ => 1%Z | _ => 0%Z end.

Definition todo (pc : MainPC) : list Item :=
  match pc with
  | AtAdd item rest | AtSend item rest | AtGo item rest => item :: rest
  | AtWait | AtEnd => []
  end.

(** The goroutines that stand where [p] holds. *)
Definition staged (p : Goroutine -> bool) (ws : list (Item * Goroutine))
    (k : nat) : Prop :=
  exists g, ws !! k = Some g /\ p (snd g) = true.

(** What every reachable state satisfies; [w0] is the world the loop
    started in. *)
Record invariant (w0 : W) (s : State) : Prop := mkInvariant {
  inv_items : items = (fst <$> workers s) ++ todo (main s);
  inv_slots : slots s = count holds_slot (workers s) + main_slot (main s);
  inv_limit : (Z.of_nat (slots s) <= limit)%Z;
  inv_waiting :
    waiting s = (Z.of_nat (count pending (workers s)) + main_wait (main s))%Z;
  inv_invoked_once : NoDup (invoked s);
  inv_invoked : forall k, k ∈ invoked s <-> staged was_invoked (workers s) k;
  inv_completed_once : NoDup (completed s);
  inv_completed :
    forall k, k ∈ completed s <-> staged has_returned (workers s) k;
  inv_world :
    world s = match main s with
              | AtEnd => notice (effects w0 (completed s))
              | _ => effects w0 (completed s)
              end;
  inv_end : main s = AtEnd -> count pending (workers s) = 0
}.

(** One schedule among the many: the main goroutine runs while it can, and
    when it is blocked the oldest unfinished goroutine takes its next
    step. *)
Definition worker_next (s : State) : option State :=
  match list_find (fun x => pending (snd x) = true) (workers s) with
  | Some (k, (item, g)) =>
      let put g' := <[k := (item, g')]> (workers s) in
      match g with
      | Spawned =>
          Some (mkState (main s) (put InTask) (slots s) (waiting s)
                  (invoked s ++ [k]) (completed s) (world s))
      | InTask =>
          Some (mkState (main s) (put TaskReturned) (slots s) (waiting s)
                  (invoked s) (completed s ++ [k]) (task item (world s)))
      | TaskReturned =>
          match slots s with
          | S sl =>
              Some (mkState (main s) (put SlotReleased) sl (waiting s)
                      (invoked s) (completed s) (world s))
          | O => None
          end
      | SlotReleased =>
          Some (mkState (main s) (put Finished) (slots s) (waiting s - 1)
                  (invoked s) (completed s) (world s))
      | Finished => None
      end
  | None => None
  end.

Definition next (s : State) : option State :=
  match main s with
  | AtAdd item rest =>
      Some (mkState (AtSend item rest) (workers s) (slots s) (waiting s + 1)
              (invoked s) (completed s) (world s))
  | AtSend item rest =>
      if (Z.of_nat (slots s) <? limit)%Z
      then Some (mkState (AtGo item rest) (workers s) (S (slots s)) (waiting s)
                   (invoked s) (completed s) (world s))
      else worker_next s
  | AtGo item rest =>
      Some (mkState (loop rest) (workers s ++ [(item, Spawned)]) (slots s)
              (waiting s) (invoked s) (completed s) (world s))
  | AtWait =>
      if (waiting s =? 0)%Z
      then Some (mkState AtEnd (workers s) (slots s) 0 (invoked s)
                   (completed s) (notice (world s)))
      else worker_next s
  | AtEnd => None
  end.

Fixpoint run (fuel : nat) (s : State) : State :=
  match fuel with
  | O => s
  | S fuel' => match next s with
               | Some s' => run fuel' s'
               | None => s
               end
  end.

End Batch.
End Orchestrator.

(** [runBackup] and [runRestore] as a whole: the prologue, then the fan-out
    loop over the pipeline, then the closing notice.  A prologue that exits
    leaves no loop to run. *)
Section Commands.
Variables (config : Config.t) (env : Env).

Definition backupTask (imageName : string) (w : World) : World :=
  snd (backupImage config env imageName w).

Definition restoreTask (tarballPath : string) (w : World) : World :=
  snd (restoreImage config env tarballPath w).

Definition say (o : Out) (w : World) : World :=
  mkWorld (fs w) (ticks w) (trace w ++ [Print o]).

Definition runBackup_step :=
  Orchestrator.step backupTask (say AllBackupsCompleted)
    (Config.MaxWorkers config).

Definition runRestore_step :=
  Orchestrator.step restoreTask (say AllRestoresCompleted)
    (Config.MaxWorkers config).

(** The state in which the fan-out loop of [runBackup] starts, if it does. *)
Definition runBackup_start (flags : Flags) (args : list string) (w : World)
  : option (Orchestrator.State (Item:=string) (W:=World)) :=
  match runBackup_setup config env flags args w with
  | (Ok imageNames, w') => Some (Orchestrator.init imageNames w')
  | (Exit _, _) => None
  end.

Definition runRestore_start (flags : Flags) (args : list string) (w : World)
  : option (Orchestrator.State (Item:=string) (W:=World)) :=
  match runRestore_setup env flags args w with
  | (Ok tarballPaths, w') => Some (Orchestrator.init tarballPaths w')
  | (Exit _, _) => None
  end.

End Commands.

(** ** The catalog listing, [runList] (lines 359-427) *)

(** Go leaves the order of a [range] over a map unspecified, and varies it
    from one loop to the next.  [seed] stands for the choices of the runtime:
    each number picks the next entry among those not yet visited. *)
Fixpoint pick {A} (n : nat) (seed : list nat) (l : list A) : list A :=
  match n with
  | O => []
  | S n' =>
      let k := hd 0 seed `mod` length l in
      match l !! k with
      | Some x => x :: pick n' (tl seed) (delete k l)
      | None => []
      end
  end.

Definition range_map {V} (seed : list nat) (m : gmap string V)
  : list (string * V) :=
  pick (size m) seed (map_to_list m).

Section Catalog.
Variables (config : Config.t) (env : Env).

(** The suffix test of line 384. *)
Definition isArchive (name : string) : bool :=
  HasSuffix name ".tar" || HasSuffix name ".tar.gz" || HasSuffix name ".tgz".

(** The two maps [runList] builds. *)
Record Catalog := mkCatalog {
  tarFiles : gmap string FileInfo.t;
  metaFiles : gmap string ImageInfo.t
}.

(** One turn of the loop over the directory entries (lines 373-401). *)
Definition scanEntry (files : gmap string File) (c : Catalog)
    (file : DirEntry.t) : Catalog :=
  if DirEntry.IsDir file then c
  else
    let name := DirEntry.Name file in
    match DirEntry.Info file with
    | None => c
    | Some info =>
        if isArchive name
        then mkCatalog (<[name := info]> (tarFiles c)) (metaFiles c)
        else if HasSuffix name ".json" then
          let metaPath := GoPath.Join [Config.BackupDir config; name] in
          match open_file files metaPath with
          | Some bytes =>
              match json_Decode env bytes with
              | Some imageInfo =>
                  let baseName := TrimSuffix name ".json" in
                  mkCatalog (tarFiles c) (<[baseName := imageInfo]> (metaFiles c))
              | None => c
              end
          | None => c
          end
        else c
    end.

Definition scanDir (files : gmap string File) (entries : list DirEntry.t)
  : Catalog :=
  foldl (scanEntry files) (mkCatalog ∅ ∅) entries.

(** What one turn of the printing loop writes (lines 412-425).  The size is
    kept in bytes: its rendering in megabytes is [fmt]'s. *)
Definition entryLines (meta : gmap string ImageInfo.t)
    (entry : string * FileInfo.t) : list Event :=
  [Print (BackupLine (fst entry));
   Print (SizeLine (FileInfo.Size (snd entry)));
   Print (DateLine (FileInfo.ModTime (snd entry)))] ++
  match meta !! fst entry with
  | Some m =>
      [Print (ImageLine (ImageInfo.ImageName m));
       Print (TagsLine (ImageInfo.Tags m))] ++
      (if Config.Verbose config
       then [Print (IDLine (ImageInfo.ImageID m));
             Print (CompressionLine (ImageInfo.CompressType m))]
       else [])
  | None => []
  end ++
  [Print BlankLine].

(** The blocks of the listing, one per archive, in the order of the
    [range] over [tarFiles]. *)
Definition listing (seed : list nat) (c : Catalog) : list (list Event) :=
  entryLines (metaFiles c) <$> range_map seed (tarFiles c).

Definition runList (seed : list nat) : M unit :=
  match read_dir env (Config.BackupDir config) with
  | DirNotExist =>
      emit (Print (DirectoryMissing (Config.BackupDir config)))
  | DirReadError => log_Fatal FailedToReadBackupDir
  | DirEntries files =>
      fun w =>
        let c := scanDir (fs w) files in
        if (size (tarFiles c) =? 0)%nat then emit (Print NoBackupsFound) w
        else
          (emit (Print ListHeader);; emit (Print ListRule);;
           emit_all (concat (listing seed c))) w
  end.

End Catalog.

(** ** Notions used to state the properties *)

(** The same string with every byte sent through [f]. *)
Fixpoint map_bytes (f : ascii -> ascii) (s : string) : string :=
  match s with
  | EmptyString => EmptyString
  | String c s' => String (f c) (map_bytes f s')
  end.

(** What the naming step does to one byte of the image name. *)
Definition sanitize_byte (c : ascii) : ascii :=
  if Ascii.eqb c "/" then "_"%char
  else if Ascii.eqb c ":" then "_"%char
  else c.

Definition is_digit (c : ascii) : bool :=
  (48 <=? nat_of_ascii c) && (nat_of_ascii c <=? 57).

Fixpoint all_bytes (p : ascii -> bool) (s : string) : bool :=
  match s with
  | EmptyString => true
  | String c s' => p c && all_bytes p s'
  end.

(** The directory part of the paths [filepath.Join] builds under [dir]:
    empty for the current directory, otherwise the cleaned directory and a
    slash. *)
Definition dir_prefix (dir : string) : string :=
  if String.eqb dir "" then ""
  else
    let cleaned := GoPath.Clean dir in
    if String.eqb cleaned "." then ""
    else if String.eqb cleaned "/" then "/"
    else cleaned +:+ "/".

(** The elements [filepath.Clean] keeps. *)
Definition kept_element (x : string) : Prop :=
  x <> "" /\ x <> "." /\ contains_byte "/" x = false.

(** A file name that is a single real path element. *)
Definition plain_name (leaf : string) : Prop :=
  contains_byte "/" leaf = false /\ 3 <= String.length leaf.

(** The subprocesses started along a trace, in order. *)
Definition commands (es : list Event) : list Cmd :=
  omap (fun e => match e with Run c => Some c | _ => None end) es.

(** The messages of the [log] package along a trace, in order. *)
Definition reports (es : list Event) : list Report :=
  omap (fun e => match e with
                 | LogPrintf r | LogFatal r => Some r
                 | _ => None
                 end) es.

(** The events one run of [restoreImage] adds to the trace, given what it
    detected and how the subprocess ended. *)
Definition restoreEvents (cfg : Config.t) (path : string) (compressed : bool)
    (loaded : bool) (output : string) : list Event :=
  (if Config.Verbose cfg then [Print (StartingRestore path)] else []) ++
  [Print (LoadingImage path compressed); Run (loadCommand path compressed)] ++
  (if loaded
   then [Print (Restored path); Print (DockerOutput output)]
   else [LogPrintf (FailedToLoad path output)]).

(** What the sidecar of [path], if it can be opened and decoded, says. *)
Definition sidecar (env : Env) (files : gmap string File) (path : string)
  : option ImageInfo.t :=
  match open_file files (path +:+ ".json") with
  | Some bytes => json_Decode env bytes
  | None => None
  end.

(** The value [restoreImage] computes for [compressed], as a function of
    the files it can see. *)
Definition detected (env : Env) (files : gmap string File) (path : string)
  : bool :=
  if HasSuffix path ".tar.gz" || HasSuffix path ".tgz" then true
  else match sidecar env files path with
       | Some imageInfo => is_gzip (ImageInfo.CompressType imageInfo)
       | None => false
       end.

(** ** Sample collaborators, for running the model on concrete inputs *)

Definition sample_time : Time := mkTime 2023 6 15 12 5 30.

Definition sample_info (compressType : string) : ImageInfo.t :=
  ImageInfo.mk "demo:1.0" "sha256:0a1b" ["demo:1.0"; "demo:latest"] 7340032
    sample_time compressType.

(** A decoder that knows three sidecars by their bytes and rejects the
    rest. *)
Definition sample_decode (bytes : string) : option ImageInfo.t :=
  if String.eqb bytes "sidecar:gzip" then Some (sample_info "gzip")
  else if String.eqb bytes "sidecar:GZIP" then Some (sample_info "GZIP")
  else if String.eqb bytes "sidecar:none" then Some (sample_info "none")
  else None.

Definition sample_inspect (imageName : string) : option ImageInspect.t :=
  if String.eqb imageName "demo:1.0"
  then Some (ImageInspect.mk "sha256:0a1b" ["demo:1.0"; "demo:latest"] 7340032)
  else None.

(** Subprocesses that succeed; a [docker save] leaves [archive] behind. *)
Definition sample_exec (archive : string) (c : Cmd) (files : gmap string File)
  : bool * string * gmap string File :=
  match c with
  | Command "sh" ["-c"; script] =>
      if String.prefix "docker save" script
      then (true, "", <[archive := mkFile true "image layers"]> files)
      else (true, "Loaded image: demo:1.0", files)
  | Command _ ("save" :: _) =>
      (true, "", <[archive := mkFile true "image layers"]> files)
  | _ => (true, "Loaded image: demo:1.0", files)
  end.

Definition sample_env (archive : string) (metadata_fails : bool)
    (dir : DirResult) : Env :=
  {| strings_TrimSpace := id;
     bufio_Scan := fun input => ([input], false);
     json_Decode := sample_decode;
     json_Encode := fun info => "sidecar:" +:+ ImageInfo.CompressType info;
     clock := fun _ => sample_time;
     stdin_data := "";
     mkdir_fails := fun _ _ => false;
     create_fails := fun _ _ => metadata_fails;
     write_fails := fun _ _ _ => false;
     read_dir := fun _ => dir;
     exec := sample_exec archive;
     new_client_fails := false;
     ImageInspectWithRaw := sample_inspect |}.

Definition sample_config (compressType : string) : Config.t :=
  Config.mk "docker-backups" 3 false compressType.

Definition sample_world (files : gmap string File) : World :=
  mkWorld files 0 [].

(** ** The ways one run of [backupImage] can go *)

(** The sidecar record [backupImage] builds at line 224. *)
Definition imageInfoOf (cfg : Config.t) (imageName : string)
    (img : ImageInspect.t) (backupDate : Time) : ImageInfo.t :=
  ImageInfo.mk imageName (ImageInspect.ID img) (ImageInspect.RepoTags img)
    (ImageInspect.Size img) backupDate (Config.CompressType cfg).

(** The events up to and including the save subprocess. *)
Definition saveEvents (cfg : Config.t) (imageName archive : string)
  : list Event :=
  (if Config.Verbose cfg then [Print (StartingBackup imageName)] else []) ++
  [Print (SavingImage imageName archive (is_gzip (Config.CompressType cfg)));
   Run (saveCommand cfg imageName archive)].

(** The error one run of [backupImage] meets, if any: which collaborator
    fails first, in the order the pipeline calls them. *)
Definition backup_failure (cfg : Config.t) (env : Env) (imageName : string)
    (w : World) : option Report :=
  match ImageInspectWithRaw env imageName with
  | None => Some (ErrorInspecting imageName)
  | Some img =>
      let archive := tarballName cfg imageName (clock env (ticks w)) in
      let saved := exec env (saveCommand cfg imageName archive) (fs w) in
      let created := <[metadataPath archive := mkFile true ""]> (snd saved) in
      let bytes :=
        json_Encode env
          (imageInfoOf cfg imageName img (clock env (S (ticks w)))) in
      if negb (fst (fst saved)) then Some (FailedToSave imageName)
      else if create_fails env (snd saved) (metadataPath archive)
      then Some (FailedToCreateMetadata imageName)
      else if write_fails env created (metadataPath archive) bytes
      then Some (FailedToWriteMetadata imageName)
      else None
  end.

(** The error one run of [restoreImage] meets, if any. *)
Definition restore_failure (env : Env) (tarballPath : string) (w : World)
  : option Report :=
  let loaded :=
    exec env (loadCommand tarballPath (detected env (fs w) tarballPath)) (fs w) in
  if fst (fst loaded) then None
  else Some (FailedToLoad tarballPath (snd (fst loaded))).

(** A pipeline that met [failure] logged it as the last thing it did, and
    logged nothing else; one that met none logged nothing. *)
Definition isolated (failure : option Report) (added : list Event) : Prop :=
  match failure with
  | Some r => reports added = [r] /\ last added = Some (LogPrintf r)
  | None => reports added = []
  end.

(** ** Notions for the catalog *)

(** What one directory entry contributes to [tarFiles], and to
    [metaFiles]. *)
Definition tar_of (file : DirEntry.t) : option (string * FileInfo.t) :=
  if DirEntry.IsDir file then None
  else match DirEntry.Info file with
       | Some info =>
           if isArchive (DirEntry.Name file)
           then Some (DirEntry.Name file, info)
           else None
       | None => None
       end.

Definition meta_of (cfg : Config.t) (env : Env) (files : gmap string File)
    (file : DirEntry.t) : option (string * ImageInfo.t) :=
  if DirEntry.IsDir file then None
  else match DirEntry.Info file with
       | Some _ =>
           if isArchive (DirEntry.Name file) then None
           else if HasSuffix (DirEntry.Name file) ".json" then
             match open_file files
                     (GoPath.Join [Config.BackupDir cfg; DirEntry.Name file]) with
             | Some bytes =>
                 match json_Decode env bytes with
                 | Some imageInfo =>
                     Some (TrimSuffix (DirEntry.Name file) ".json", imageInfo)
                 | None => None
                 end
             | None => None
             end
           else None
       | None => None
       end.

(** The lines every listed archive gets, and those a decoded sidecar
    adds. *)
Definition attributeLines (name : string) (info : FileInfo.t) : list Event :=
  [Print (BackupLine name);
   Print (SizeLine (FileInfo.Size info));
   Print (DateLine (FileInfo.ModTime info))].

Definition metadataLines (cfg : Config.t) (m : ImageInfo.t) : list Event :=
  [Print (ImageLine (ImageInfo.ImageName m));
   Print (TagsLine (ImageInfo.Tags m))] ++
  (if Config.Verbose cfg
   then [Print (IDLine (ImageInfo.ImageID m));
         Print (CompressionLine (ImageInfo.CompressType m))]
   else []).

(** The directory entry [s] is a sidecar of the archive [name] that
    [runList] reads and decodes into [m]. *)
Definition decodes_for (cfg : Config.t) (env : Env) (files : gmap string File)
    (name : string) (s : DirEntry.t) (m : ImageInfo.t) : Prop :=
  DirEntry.Name s = name +:+ ".json" /\
  DirEntry.IsDir s = false /\
  is_Some (DirEntry.Info s) /\
  exists bytes,
    open_file files (GoPath.Join [Config.BackupDir cfg; DirEntry.Name s])
      = Some bytes /\
    json_Decode env bytes = Some m.

(** The backup names [runList] printed. *)
Definition listed (es : list Event) : list string :=
  omap (fun e => match e with
                 | Print (BackupLine name) => Some name
                 | _ => None
                 end) es.

(** "Every file of the directory that is not a directory and whose name has
    an archive suffix is in the listing." *)
Definition lists_every_archive (cfg : Config.t) (env : Env) : Prop :=
  forall seed w entries e,
    read_dir env (Config.BackupDir cfg) = DirEntries entries ->
    e ∈ entries -> DirEntry.IsDir e = false ->
    isArchive (DirEntry.Name e) = true ->
    DirEntry.Name e ∈ listed (trace (snd (runList cfg env seed w))).

(** "Two listings of the same directory print the same lines in the same
    order." *)
Definition listing_order_is_fixed (cfg : Config.t) (env : Env) : Prop :=
  forall seed1 seed2 w,
    trace (snd (runList cfg env seed1 w)) = trace (snd (runList cfg env seed2 w)).

(** A directory with an archive and its sidecar, an archive of its own, a
    sidecar that does not decode, and an entry whose attributes cannot be
    read. *)
Definition sample_dir : list DirEntry.t :=
  [DirEntry.mk "a.tar" false (Some (FileInfo.mk 2048 sample_time));
   DirEntry.mk "a.tar.json" false (Some (FileInfo.mk 120 sample_time));
   DirEntry.mk "b.tar.gz" false (Some (FileInfo.mk 1024 sample_time));
   DirEntry.mk "b.tar.gz.json" false (Some (FileInfo.mk 7 sample_time));
   DirEntry.mk "c.tgz" false None;
   DirEntry.mk "old" true (Some (FileInfo.mk 4096 sample_time))].

Definition sample_files : gmap string File :=
  {[ "docker-backups/a.tar.json" := mkFile true "sidecar:none";
     "docker-backups/b.tar.gz.json" := mkFile true "{broken" ]}.




(** The number a run of decimal digits stands for, leading zeros
    included. *)
Definition number_of (s : string) : option N :=
  N.of_uint <$> NilEmpty.uint_of_string s.

(** [s] is the number [x] written in decimal digits on exactly [width]
    bytes. *)
Definition zero_padded (s : string) (width : nat) (x : N) : Prop :=
  String.length s = width /\ all_bytes is_digit s = true /\
  number_of s = Some x.

(** ** Notions for the further properties *)

(** An entry [runList] takes for an archive: not a directory, attributes
    read, archive suffix. *)
Definition readable_archive (e : DirEntry.t) : bool :=
  negb (DirEntry.IsDir e) &&
  bool_decide (is_Some (DirEntry.Info e)) &&
  isArchive (DirEntry.Name e).

(** An event that only writes to the console or the log. *)
Definition speaks (e : Event) : Prop :=
  match e with
  | Print _ | LogPrintf _ | LogFatal _ => True
  | MkdirAll _ | Run _ => False
  end.

(** * Properties *)

(** ** The library models on concrete inputs *)

Example HasSuffix_ex1 : HasSuffix "img.tar.gz" ".tar.gz" = true.
Proof. reflexivity. Qed.
Example HasSuffix_ex2 : HasSuffix "gz" ".tar.gz" = false.
Proof. reflexivity. Qed.
Example TrimSuffix_ex : TrimSuffix "a.tar.json" ".json" = "a.tar".
Proof. reflexivity. Qed.
Example ReplaceAll_ex :
  ReplaceAll (ReplaceAll "registry.example.com/app:v2" "/" "_") ":" "_"
  = "registry.example.com_app_v2".
Proof. reflexivity. Qed.
Example Format_ex :
  Format_20060102_150405 (mkTime 2023 6 15 12 5 30) = "20230615-120530".
Proof. reflexivity. Qed.
Example Join_ex1 : GoPath.Join ["docker-backups"; "x.tar"] = "docker-backups/x.tar".
Proof. reflexivity. Qed.
Example Join_ex2 : GoPath.Join ["/a//b/../c/"; "x.tar"] = "/a/c/x.tar".
Proof. reflexivity. Qed.
Example Join_ex3 : GoPath.Join ["."; "x.tar"] = "x.tar".
Proof. reflexivity. Qed.
Example Join_ex4 : GoPath.Join ["../.."; "x.tar"] = "../../x.tar".
Proof. reflexivity. Qed.
Example Join_ex5 : GoPath.Join [""; "x.tar"] = "x.tar".
Proof. reflexivity. Qed.
Example Join_ex6 : GoPath.Join ["/"; "x.tar"] = "/x.tar".
Proof. reflexivity. Qed.

(** ** Strings *)

Lemma app_cons (c : ascii) (s t : string) :
  String c s +:+ t = String c (s +:+ t).
Proof. reflexivity. Qed.

Lemma app_empty_l (s : string) : "" +:+ s = s.
Proof. reflexivity. Qed.

Lemma app_empty_r (s : string) : s +:+ "" = s.
Proof. induction s as [|c s IH]; [done|]. by rewrite app_cons, IH. Qed.

Lemma app_assoc_s (a b c : string) : (a +:+ b) +:+ c = a +:+ b +:+ c.
Proof. induction a as [|x a IH]; [done|]. by rewrite !app_cons, IH. Qed.

Lemma length_app_s (a b : string) :
  String.length (a +:+ b) = String.length a + String.length b.
Proof. induction a as [|x a IH]; [done|]. rewrite app_cons. simpl. by rewrite IH. Qed.

Lemma substring_all (s : string) : String.substring 0 (String.length s) s = s.
Proof. induction s as [|c s IH]; [done|]. simpl. by rewrite IH. Qed.

Lemma substring_app_r (p s : string) :
  String.substring (String.length p) (String.length s) (p +:+ s) = s.
Proof.
  induction p as [|c p IH]; [apply substring_all|].
  rewrite app_cons. simpl. apply IH.
Qed.

Lemma substring_app_l (p s : string) :
  String.substring 0 (String.length p) (p +:+ s) = p.
Proof.
  induction p as [|c p IH]; [by destruct s|].
  rewrite app_cons. simpl. by rewrite IH.
Qed.

Lemma substring_split (s : string) (n : nat) :
  n <= String.length s ->
  s = String.substring 0 n s +:+ String.substring n (String.length s - n) s.
Proof.
  revert n. induction s as [|c s IH]; intros [|n] Hn; simpl in *; try lia.
  - done.
  - rewrite app_empty_l. by rewrite substring_all.
  - rewrite app_cons. f_equal. apply IH. lia.
Qed.

Lemma HasSuffix_app (p suffix : string) : HasSuffix (p +:+ suffix) suffix = true.
Proof.
  unfold HasSuffix, len. rewrite length_app_s.
  replace (String.length p + String.length suffix - String.length suffix)
    with (String.length p) by lia.
  rewrite substring_app_r, String.eqb_refl.
  apply andb_true_intro; split; [|done]. apply Nat.leb_le. lia.
Qed.

Lemma HasSuffix_inv (s suffix : string) :
  HasSuffix s suffix = true -> exists p, s = p +:+ suffix.
Proof.
  unfold HasSuffix, len. intros [Hle Heq]%andb_prop.
  apply Nat.leb_le in Hle. apply String.eqb_eq in Heq.
  exists (String.substring 0 (String.length s - String.length suffix) s).
  rewrite (substring_split s (String.length s - String.length suffix)) at 1 by lia.
  f_equal. rewrite <- Heq at 3. f_equal. lia.
Qed.

Lemma HasSuffix_iff (s suffix : string) :
  HasSuffix s suffix = true <-> exists p, s = p +:+ suffix.
Proof.
  split; [apply HasSuffix_inv|]. intros [p ->]. apply HasSuffix_app.
Qed.

Lemma TrimSuffix_app (p suffix : string) : TrimSuffix (p +:+ suffix) suffix = p.
Proof.
  unfold TrimSuffix. rewrite HasSuffix_app. unfold len. rewrite length_app_s.
  replace (String.length p + String.length suffix - String.length suffix)
    with (String.length p) by lia.
  apply substring_app_l.
Qed.

Lemma contains_byte_app (c : ascii) (a b : string) :
  contains_byte c (a +:+ b) = contains_byte c a || contains_byte c b.
Proof.
  induction a as [|x a IH]; [done|].
  rewrite app_cons. simpl. by rewrite IH, orb_assoc.
Qed.

Lemma prefix_empty (s : string) : String.prefix "" s = true.
Proof. by destruct s. Qed.

Lemma replace_one_byte (a b : ascii) (s : string) :
  ReplaceAll s (String a "") (String b "")
  = map_bytes (fun c => if Ascii.eqb c a then b else c) s.
Proof.
  unfold ReplaceAll. induction s as [|c s IH]; [done|].
  cbn [replace_go String.prefix map_bytes].
  destruct (ascii_dec a c) as [<-|Hne].
  - rewrite prefix_empty, Ascii.eqb_refl. cbn [len String.length Nat.sub].
    rewrite app_cons, app_empty_l. by rewrite IH.
  - rewrite (proj2 (Ascii.eqb_neq c a)) by congruence. by rewrite IH.
Qed.

Lemma map_bytes_compose (f g : ascii -> ascii) (s : string) :
  map_bytes f (map_bytes g s) = map_bytes (fun c => f (g c)) s.
Proof. induction s as [|c s IH]; [done|]. simpl. by rewrite IH. Qed.

Lemma map_bytes_ext (f g : ascii -> ascii) (s : string) :
  (forall c, f c = g c) -> map_bytes f s = map_bytes g s.
Proof. intros E. induction s as [|c s IH]; [done|]. simpl. by rewrite E, IH. Qed.

Lemma contains_byte_map (f : ascii -> ascii) (c : ascii) (s : string) :
  (forall x, f x <> c) -> contains_byte c (map_bytes f s) = false.
Proof.
  intros Hf. induction s as [|x s IH]; [done|]. simpl.
  rewrite IH, orb_false_r. apply Ascii.eqb_neq, Hf.
Qed.

Lemma length_map_bytes (f : ascii -> ascii) (s : string) :
  String.length (map_bytes f s) = String.length s.
Proof. induction s as [|c s IH]; [done|]. simpl. by rewrite IH. Qed.

Lemma safeImageName_bytes (imageName : string) :
  safeImageName imageName = map_bytes sanitize_byte imageName.
Proof.
  unfold safeImageName. rewrite !replace_one_byte, map_bytes_compose.
  apply map_bytes_ext. intros c. unfold sanitize_byte.
  destruct (Ascii.eqb c "/") eqn:E; [done|]. done.
Qed.

Lemma sanitize_byte_not (c x : ascii) :
  c = "/"%char \/ c = ":"%char -> sanitize_byte x <> c.
Proof.
  unfold sanitize_byte. intros Hc.
  destruct (Ascii.eqb x "/") eqn:E1; [destruct Hc as [-> | ->]; discriminate|].
  destruct (Ascii.eqb x ":") eqn:E2; [destruct Hc as [-> | ->]; discriminate|].
  apply Ascii.eqb_neq in E1, E2. destruct Hc as [-> | ->]; done.
Qed.

Lemma safeImageName_clean (imageName : string) (c : ascii) :
  c = "/"%char \/ c = ":"%char ->
  contains_byte c (safeImageName imageName) = false.
Proof.
  intros Hc. rewrite safeImageName_bytes.
  apply contains_byte_map. intros x. by apply sanitize_byte_not.
Qed.

(** ** Timestamps *)

Lemma all_bytes_app (p : ascii -> bool) (a b : string) :
  all_bytes p (a +:+ b) = all_bytes p a && all_bytes p b.
Proof.
  induction a as [|x a IH]; [done|].
  rewrite app_cons. simpl. by rewrite IH, andb_assoc.
Qed.

Lemma all_bytes_excludes (p : ascii -> bool) (c : ascii) (s : string) :
  p c = false -> all_bytes p s = true -> contains_byte c s = false.
Proof.
  intros Hc. induction s as [|x s IH]; [done|]. simpl.
  intros [Hx Hs]%andb_prop. rewrite IH, orb_false_r by done.
  apply Ascii.eqb_neq. intros ->. congruence.
Qed.

Lemma digits_of_uint (u : Decimal.uint) :
  all_bytes is_digit (NilEmpty.string_of_uint u) = true.
Proof. induction u; simpl; auto. Qed.

Lemma digits_decimal (n : N) : all_bytes is_digit (decimal n) = true.
Proof. apply digits_of_uint. Qed.

Lemma digits_zeros (k : nat) : all_bytes is_digit (zeros k) = true.
Proof. induction k; simpl; auto. Qed.

Lemma length_zeros (k : nat) : String.length (zeros k) = k.
Proof. induction k; simpl; auto. Qed.

Lemma digits_appendInt (x : N) (width : nat) :
  all_bytes is_digit (appendInt x width) = true.
Proof.
  unfold appendInt. by rewrite all_bytes_app, digits_zeros, digits_decimal.
Qed.

Lemma length_appendInt (x : N) (width : nat) :
  String.length (decimal x) <= width ->
  String.length (appendInt x width) = width.
Proof.
  intros H. unfold appendInt. rewrite length_app_s, length_zeros. lia.
Qed.

Lemma decimal_width_below (bound : N) (width : nat) :
  forallb (fun n => String.length (decimal (N.of_nat n)) <=? width)
    (seq 0 (N.to_nat bound)) = true ->
  forall x : N, (x < bound)%N -> String.length (decimal x) <= width.
Proof.
  intros Hall x Hx. rewrite forallb_forall in Hall.
  specialize (Hall (N.to_nat x)). rewrite N2Nat.id in Hall.
  apply Nat.leb_le, Hall, in_seq. lia.
Qed.

Lemma decimal_width_4 (x : N) : (x <= 9999)%N -> String.length (decimal x) <= 4.
Proof.
  intros Hx. apply (decimal_width_below 10000%N); [by vm_compute|lia].
Qed.

Lemma decimal_width_2 (x : N) : (x <= 99)%N -> String.length (decimal x) <= 2.
Proof.
  intros Hx. apply (decimal_width_below 100%N); [by vm_compute|lia].
Qed.

Lemma digits_Format (t : Time) (c : ascii) :
  is_digit c = false -> c <> "-"%char ->
  contains_byte c (Format_20060102_150405 t) = false.
Proof.
  intros Hc Hdash. unfold Format_20060102_150405.
  rewrite !contains_byte_app.
  rewrite !(all_bytes_excludes is_digit c (appendInt _ _))
    by (done || apply digits_appendInt).
  cbn [contains_byte orb]. rewrite !orb_false_r.
  apply Ascii.eqb_neq. congruence.
Qed.

Lemma Format_shape (t : Time) :
  valid t ->
  exists date clock : string,
    Format_20060102_150405 t = date +:+ "-" +:+ clock /\
    String.length date = 8 /\ String.length clock = 6 /\
    all_bytes is_digit date = true /\ all_bytes is_digit clock = true.
Proof.
  intros (Hy & Hm & Hd & Hh & Hmi & Hs).
  exists (appendInt (Year t) 4 +:+ appendInt (Month t) 2 +:+ appendInt (Day t) 2),
         (appendInt (Hour t) 2 +:+ appendInt (Minute t) 2 +:+ appendInt (Second t) 2).
  split; [|split; [|split; [|split]]].
  - unfold Format_20060102_150405. by rewrite !app_assoc_s.
  - rewrite !length_app_s, length_appendInt by (apply decimal_width_4; lia).
    rewrite !length_appendInt by (apply decimal_width_2; lia). done.
  - rewrite !length_app_s.
    rewrite !length_appendInt by (apply decimal_width_2; lia). done.
  - by rewrite !all_bytes_app, !digits_appendInt.
  - by rewrite !all_bytes_app, !digits_appendInt.
Qed.

Lemma number_of_zero (s : string) : number_of (String "0" s) = number_of s.
Proof.
  unfold number_of. cbn [NilEmpty.uint_of_string].
  by destruct (NilEmpty.uint_of_string s).
Qed.

Lemma number_of_appendInt (x : N) (width : nat) :
  number_of (appendInt x width) = Some x.
Proof.
  unfold appendInt.
  induction (width - String.length (decimal x)) as [|k IH].
  - rewrite app_empty_l. unfold number_of, decimal.
    rewrite NilEmpty.usu. simpl. by rewrite DecimalN.Unsigned.of_to.
  - cbn [zeros]. by rewrite app_cons, number_of_zero.
Qed.

Lemma zero_padded_appendInt (x : N) (width : nat) :
  String.length (decimal x) <= width -> zero_padded (appendInt x width) width x.
Proof.
  intros H. split; [by apply length_appendInt|].
  split; [apply digits_appendInt | apply number_of_appendInt].
Qed.

Lemma Format_fields (t : Time) :
  valid t ->
  exists yyyy mo dd hh mi ss : string,
    Format_20060102_150405 t = yyyy +:+ mo +:+ dd +:+ "-" +:+ hh +:+ mi +:+ ss /\
    zero_padded yyyy 4 (Year t) /\ zero_padded mo 2 (Month t) /\
    zero_padded dd 2 (Day t) /\ zero_padded hh 2 (Hour t) /\
    zero_padded mi 2 (Minute t) /\ zero_padded ss 2 (Second t).
Proof.
  intros (Hy & Hm & Hd & Hh & Hmi & Hs).
  exists (appendInt (Year t) 4), (appendInt (Month t) 2), (appendInt (Day t) 2),
         (appendInt (Hour t) 2), (appendInt (Minute t) 2),
         (appendInt (Second t) 2).
  split; [done|].
  split; [apply zero_padded_appendInt, decimal_width_4; lia|].
  repeat split; try (apply length_appendInt, decimal_width_2; lia);
    apply digits_appendInt || apply number_of_appendInt.
Qed.

(** ** Paths *)

Lemma split_slash_nonempty (s : string) : split_slash s <> [].
Proof.
  destruct s as [|c s]; [done|]. simpl.
  destruct (Ascii.eqb c "/"); [done|]. by destruct (split_slash s).
Qed.

Lemma split_slash_app (d t : string) :
  split_slash (d +:+ String "/" t) = split_slash d ++ split_slash t.
Proof.
  induction d as [|c d IH]; [done|].
  rewrite app_cons. cbn [split_slash]. rewrite IH.
  destruct (Ascii.eqb c "/"); [done|].
  pose proof (split_slash_nonempty d). by destruct (split_slash d).
Qed.

Lemma split_slash_plain (s : string) :
  contains_byte "/" s = false -> split_slash s = [s].
Proof.
  induction s as [|c s IH]; [done|]. cbn [contains_byte split_slash].
  intros [Hc Hs]%orb_false_elim. by rewrite Hc, IH.
Qed.

Lemma split_slash_elements (s x : string) :
  x ∈ split_slash s -> contains_byte "/" x = false.
Proof.
  revert x. induction s as [|c s IH]; intros x.
  - simpl. by intros ->%list_elem_of_singleton.
  - cbn [split_slash]. destruct (Ascii.eqb c "/") eqn:Hc.
    + intros [->|Hx]%elem_of_cons; [done|]. by apply IH.
    + pose proof (split_slash_nonempty s).
      destruct (split_slash s) as [|w ws]; [done|].
      intros [->|Hx]%elem_of_cons.
      * cbn [contains_byte]. rewrite Hc. apply IH. by left.
      * apply IH. by right.
Qed.

Lemma Join_snoc (l : list string) (x sep : string) :
  GoStrings.Join (l ++ [x]) sep =
  match l with
  | [] => x
  | _ => GoStrings.Join l sep +:+ sep +:+ x
  end.
Proof.
  induction l as [|y l IH]; [done|].
  destruct l as [|z l]; [done|].
  change (GoStrings.Join ((y :: z :: l) ++ [x]) sep)
    with (y +:+ sep +:+ GoStrings.Join ((z :: l) ++ [x]) sep).
  rewrite IH.
  change (GoStrings.Join (y :: z :: l) sep)
    with (y +:+ sep +:+ GoStrings.Join (z :: l) sep).
  by rewrite !app_assoc_s.
Qed.

Lemma clean_step_kept (rooted : bool) (stack : list string) (c : string) :
  contains_byte "/" c = false ->
  Forall kept_element stack ->
  Forall kept_element (GoPath.clean_step rooted stack c).
Proof.
  intros Hc Hst. unfold GoPath.clean_step.
  destruct (String.eqb_spec c "") as [->|H1]; [done|].
  destruct (String.eqb_spec c ".") as [->|H2]; [done|]. cbn [orb].
  assert (kept_element c) by done.
  destruct (String.eqb c "..").
  - destruct stack as [|top rest].
    + destruct rooted; auto.
    + apply Forall_cons in Hst as [? ?].
      destruct (String.eqb top ".."); [destruct rooted|]; auto.
  - auto.
Qed.

Lemma clean_fold_kept (rooted : bool) (cs stack : list string) :
  (forall c, c ∈ cs -> contains_byte "/" c = false) ->
  Forall kept_element stack ->
  Forall kept_element (fold_left (GoPath.clean_step rooted) cs stack).
Proof.
  revert stack. induction cs as [|c cs IH]; intros stack Hcs Hst; [done|].
  simpl. apply IH.
  - intros x Hx. apply Hcs. by right.
  - apply clean_step_kept; [|done]. apply Hcs. by left.
Qed.

Lemma Join_kept (l : list string) :
  l <> [] -> Forall kept_element l ->
  GoStrings.Join l "/" <> "" /\ GoStrings.Join l "/" <> "." /\
  GoStrings.Join l "/" <> "/".
Proof.
  destruct l as [|x rest]; [done|]. intros _ Hl.
  apply Forall_cons in Hl as [(Hx1 & Hx2 & Hx3) _].
  destruct x as [|c x]; [done|]. cbn [contains_byte] in Hx3.
  apply orb_false_elim in Hx3 as [Hc _]. apply Ascii.eqb_neq in Hc.
  destruct rest as [|y rest].
  - simpl. split; [done|]. split; [done|]. congruence.
  - change (GoStrings.Join (String c x :: y :: rest) "/")
      with (String c (x +:+ "/" +:+ GoStrings.Join (y :: rest) "/")).
    split; [done|]. split; [|congruence].
    destruct x; [|done]. by rewrite app_empty_l.
Qed.

Lemma plain_name_step (rooted : bool) (stack : list string) (leaf : string) :
  plain_name leaf -> GoPath.clean_step rooted stack leaf = leaf :: stack.
Proof.
  intros [_ Hlen]. unfold GoPath.clean_step.
  destruct (String.eqb_spec leaf "") as [->|_]; [simpl in Hlen; lia|].
  destruct (String.eqb_spec leaf ".") as [->|_]; [simpl in Hlen; lia|].
  destruct (String.eqb_spec leaf "..") as [->|_]; [simpl in Hlen; lia|].
  done.
Qed.

Lemma elements_plain (rooted : bool) (leaf : string) :
  plain_name leaf -> GoPath.elements rooted leaf = [leaf].
Proof.
  intros Hleaf. unfold GoPath.elements.
  rewrite split_slash_plain by apply Hleaf.
  cbn [fold_left]. by rewrite plain_name_step.
Qed.

Lemma elements_under (rooted : bool) (dir leaf : string) :
  plain_name leaf ->
  GoPath.elements rooted (dir +:+ "/" +:+ leaf)
  = GoPath.elements rooted dir ++ [leaf].
Proof.
  intros Hleaf. unfold GoPath.elements.
  change ("/" +:+ leaf) with (String "/" leaf).
  rewrite split_slash_app, (split_slash_plain leaf), fold_left_app
    by apply Hleaf.
  cbn [fold_left]. by rewrite plain_name_step.
Qed.

Lemma elements_kept (rooted : bool) (path : string) :
  Forall kept_element (GoPath.elements rooted path).
Proof.
  apply Forall_rev, clean_fold_kept; [|done].
  intros x. apply split_slash_elements.
Qed.

Lemma rooted_app (dir rest : string) :
  dir <> "" -> String.prefix "/" (dir +:+ rest) = String.prefix "/" dir.
Proof.
  destruct dir as [|c dir]; [done|]. intros _. rewrite app_cons.
  cbn [String.prefix]. destruct (ascii_dec "/" c); [|done].
  by rewrite !prefix_empty.
Qed.

Lemma rooted_plain (leaf : string) :
  plain_name leaf -> String.prefix "/" leaf = false.
Proof.
  intros [Hs Hlen]. destruct leaf as [|c leaf]; [simpl in Hlen; lia|].
  cbn [contains_byte] in Hs. apply orb_false_elim in Hs as [Hc _].
  apply Ascii.eqb_neq in Hc. cbn [String.prefix].
  destruct (ascii_dec "/" c); [congruence|done].
Qed.

Lemma Clean_nonempty (path : string) :
  path <> "" ->
  GoPath.Clean path =
  let body := GoStrings.Join (GoPath.elements (String.prefix "/" path) path) "/" in
  if String.prefix "/" path then "/" +:+ body
  else if String.eqb body "" then "." else body.
Proof.
  intros Hp. unfold GoPath.Clean. by destruct (String.eqb_spec path "").
Qed.

Lemma app_nonempty_r (a b : string) : b <> "" -> a +:+ b <> "".
Proof. destruct a; [done|]. by rewrite app_cons. Qed.

Lemma plain_name_nonempty (leaf : string) : plain_name leaf -> leaf <> "".
Proof. intros [_ Hlen] ->. simpl in Hlen. lia. Qed.

Lemma Clean_plain (leaf : string) : plain_name leaf -> GoPath.Clean leaf = leaf.
Proof.
  intros Hleaf. rewrite Clean_nonempty by by apply plain_name_nonempty.
  rewrite rooted_plain, elements_plain by done. cbn [GoStrings.Join].
  cbv zeta. destruct (String.eqb_spec leaf "") as [E|_]; [|done].
  by apply plain_name_nonempty in E.
Qed.

Lemma Clean_under (dir leaf : string) :
  dir <> "" -> plain_name leaf ->
  GoPath.Clean (dir +:+ "/" +:+ leaf) = dir_prefix dir +:+ leaf.
Proof.
  intros Hdir Hleaf. pose proof (plain_name_nonempty _ Hleaf) as Hne.
  unfold dir_prefix. destruct (String.eqb_spec dir "") as [?|_]; [done|].
  rewrite !Clean_nonempty by (done || by destruct dir).
  rewrite rooted_app by done. cbv zeta.
  set (rooted := String.prefix "/" dir).
  rewrite elements_under, Join_snoc by done.
  pose proof (elements_kept rooted dir) as Hkept.
  destruct (GoPath.elements rooted dir) as [|k ks] eqn:Ek.
  - cbn [GoStrings.Join]. destruct rooted.
    + done.
    + cbn. by destruct (String.eqb_spec leaf "").
  - destruct (Join_kept (k :: ks)) as (J1 & J2 & J3); [done..|].
    set (J := GoStrings.Join (k :: ks) "/") in *.
    assert (J +:+ "/" +:+ leaf <> "") by (destruct J; done).
    destruct rooted.
    + change ("/" +:+ J) with (String "/" J).
      destruct (String.eqb_spec (String "/" J) ".") as [?|_]; [done|].
      destruct (String.eqb_spec (String "/" J) "/") as [E|_]; [congruence|].
      by rewrite !app_cons, !app_assoc_s.
    + destruct (String.eqb_spec J "") as [?|_]; [done|].
      destruct (String.eqb_spec J ".") as [?|_]; [done|].
      destruct (String.eqb_spec J "/") as [?|_]; [done|].
      destruct (String.eqb_spec (J +:+ "/" +:+ leaf) "") as [?|_]; [done|].
      by rewrite !app_assoc_s.
Qed.

Lemma Join_under (dir leaf : string) :
  plain_name leaf -> GoPath.Join [dir; leaf] = dir_prefix dir +:+ leaf.
Proof.
  intros Hleaf. pose proof Hleaf as [_ Hlen]. cbn [GoPath.Join].
  destruct (String.eqb_spec dir "") as [->|Hdir].
  - destruct (String.eqb_spec leaf "") as [->|_]; [simpl in Hlen; lia|].
    cbn [GoStrings.Join]. by rewrite Clean_plain.
  - change (GoStrings.Join [dir; leaf] "/") with (dir +:+ "/" +:+ leaf).
    by apply Clean_under.
Qed.

(** ** The naming step *)

Lemma leaf_plain (imageName : string) (now : Time) :
  plain_name
    (safeImageName imageName +:+ "-" +:+ Format_20060102_150405 now +:+ ".tar").
Proof.
  split.
  - rewrite !contains_byte_app, safeImageName_clean by auto.
    by rewrite digits_Format.
  - rewrite !length_app_s. simpl. lia.
Qed.

Lemma app_last_byte (a b : string) (c d : ascii) :
  a +:+ String c "" = b +:+ String d "" -> c = d.
Proof.
  revert b. induction a as [|x a IH]; intros [|y b]; rewrite ?app_cons, ?app_empty_l.
  - congruence.
  - intros [= _ E]. by destruct b.
  - intros [= _ E]. by destruct a.
  - intros [= _ E]. by apply IH in E.
Qed.

Lemma tar_not_gz (s : string) : HasSuffix (s +:+ ".tar") ".gz" = false.
Proof.
  destruct (HasSuffix (s +:+ ".tar") ".gz") eqn:E; [|done].
  apply HasSuffix_inv in E as [p E].
  change ".tar" with (".ta" +:+ "r") in E. change ".gz" with (".g" +:+ "z") in E.
  rewrite <- !app_assoc_s in E. by apply app_last_byte in E.
Qed.

Lemma is_gzip_spec (compressType : string) :
  is_gzip compressType = true <-> compressType = "gzip".
Proof. apply String.eqb_eq. Qed.

Lemma dir_prefix_shape (dir : string) :
  dir_prefix dir = "" \/ HasSuffix (dir_prefix dir) "/" = true.
Proof.
  unfold dir_prefix. destruct (String.eqb dir ""); [by left|].
  destruct (String.eqb (GoPath.Clean dir) "."); [by left|]. right.
  destruct (String.eqb (GoPath.Clean dir) "/"); [done|]. apply HasSuffix_app.
Qed.

Lemma tarballName_eq (cfg : Config.t) (imageName : string) (now : Time) :
  tarballName cfg imageName now =
  dir_prefix (Config.BackupDir cfg) +:+
  safeImageName imageName +:+ "-" +:+ Format_20060102_150405 now +:+ ".tar" +:+
  (if is_gzip (Config.CompressType cfg) then ".gz" else "").
Proof.
  unfold tarballName. rewrite Join_under by apply leaf_plain.
  destruct (is_gzip (Config.CompressType cfg)).
  - by rewrite !app_assoc_s.
  - by rewrite !app_empty_r.
Qed.

(** ** The restore pipeline *)

Lemma detectCompressed_eq (env : Env) (path : string) (w : World) :
  detectCompressed env path w = (Ok (detected env (fs w) path), w).
Proof.
  unfold detectCompressed, detected, sidecar.
  destruct (HasSuffix path ".tar.gz" || HasSuffix path ".tgz"); [done|].
  unfold mbind, M_bind, os_Stat, os_Open, mret, M_ret.
  case_bool_decide as Hstat.
  - destruct (open_file (fs w) (path +:+ ".json")) as [bytes|]; [|done].
    by destruct (json_Decode env bytes).
  - unfold open_file. destruct (fs w !! (path +:+ ".json")) eqn:E; [|done].
    destruct Hstat. by eexists.
Qed.

Lemma emit_eq (e : Event) (w : World) :
  emit e w = (Ok tt, mkWorld (fs w) (ticks w) (trace w ++ [e])).
Proof. done. Qed.

Lemma restoreImage_eq (cfg : Config.t) (env : Env) (path : string) (w : World) :
  restoreImage cfg env path w =
  let c := detected env (fs w) path in
  let r := exec env (loadCommand path c) (fs w) in
  (Ok tt, mkWorld (snd r) (ticks w)
            (trace w ++ restoreEvents cfg path c (fst (fst r)) (snd (fst r)))).
Proof.
  unfold restoreImage, restoreEvents, when, cmd_CombinedOutput.
  unfold mbind, M_bind, mret, M_ret. cbv zeta.
  destruct (exec env (loadCommand path (detected env (fs w) path)) (fs w))
    as [[ok out] fs'] eqn:Ex.
  destruct (Config.Verbose cfg); rewrite ?emit_eq, !detectCompressed_eq;
    cbn [fs ticks trace]; rewrite ?emit_eq; cbn [fs ticks trace]; rewrite Ex;
    cbn [fst snd]; destruct ok; cbn [negb];
    rewrite ?emit_eq; cbn [fs ticks trace]; cbn [app];
    by rewrite <- ?app_assoc.
Qed.

Lemma commands_restoreEvents (cfg : Config.t) (path : string) (c ok : bool)
    (out : string) :
  commands (restoreEvents cfg path c ok out) = [loadCommand path c].
Proof. unfold restoreEvents. by destruct (Config.Verbose cfg), ok. Qed.

Lemma reports_restoreEvents (cfg : Config.t) (path : string) (c ok : bool)
    (out : string) :
  reports (restoreEvents cfg path c ok out)
  = if ok then [] else [FailedToLoad path out].
Proof. unfold restoreEvents. by destruct (Config.Verbose cfg), ok. Qed.

Lemma sidecar_lookup (env : Env) (files : gmap string File) (path : string) :
  sidecar env files path =
  match files !! (path +:+ ".json") with
  | Some f => if readable f then json_Decode env (data f) else None
  | None => None
  end.
Proof.
  unfold sidecar, open_file.
  destruct (files !! (path +:+ ".json")) as [f|]; [|done]. by destruct (readable f).
Qed.

(** C1: the compression kind [restoreImage] uses.  The one subprocess it
    starts is [gunzip -c path | docker load] for a gzip item and
    [docker load -i path] for an uncompressed one.  A path ending in
    [.tar.gz] or [.tgz] is loaded as gzip whatever its sidecar says;
    otherwise a sidecar at [path.json] that opens and decodes decides, gzip
    exactly when its [compress_type] is [gzip]; otherwise the archive is
    loaded uncompressed. *)
Theorem restore_detection_priority (cfg : Config.t) (env : Env)
    (path : string) (w : World) :
  exists (c : bool) (w' : World) (added : list Event),
    restoreImage cfg env path w = (Ok tt, w') /\
    trace w' = trace w ++ added /\
    commands added =
      [if c
       then Command "sh" ["-c"; "gunzip -c " +:+ path +:+ " | docker load"]
       else Command "docker" ["load"; "-i"; path]] /\
    Print (LoadingImage path c) ∈ added /\
    (HasSuffix path ".tar.gz" = true \/ HasSuffix path ".tgz" = true ->
     c = true) /\
    (HasSuffix path ".tar.gz" = false -> HasSuffix path ".tgz" = false ->
     (forall f info,
        fs w !! (path +:+ ".json") = Some f -> readable f = true ->
        json_Decode env (data f) = Some info ->
        (c = true <-> ImageInfo.CompressType info = "gzip")) /\
     ((forall f, fs w !! (path +:+ ".json") = Some f ->
                 readable f = false \/ json_Decode env (data f) = None) ->
      c = false)).
Proof.
  eexists (detected env (fs w) path), _, _.
  split; [apply restoreImage_eq|]. cbv zeta. cbn [trace].
  split; [done|]. split; [apply commands_restoreEvents|].
  split.
  { unfold restoreEvents. rewrite elem_of_app. right. by left. }
  unfold detected. rewrite sidecar_lookup. split.
  - intros [-> | ->]; [done|]. by rewrite orb_true_r.
  - intros -> ->. cbn [orb]. split.
    + intros f info -> -> ->. apply is_gzip_spec.
    + intros Hno. destruct (fs w !! (path +:+ ".json")) as [f|]; [|done].
      destruct (Hno f eq_refl) as [-> | ->]; [done|]. by destruct (readable f).
Qed.

Lemma restore_detection_priority_witness :
  exists w' : World,
    restoreImage (sample_config "gzip") (sample_env "" false DirNotExist)
      "img.tar"
      (sample_world {[ "img.tar.json" := mkFile true "sidecar:gzip" ]})
    = (Ok tt, w') /\
    commands (trace w')
    = [Command "sh" ["-c"; "gunzip -c img.tar | docker load"]].
Proof.
  destruct (restore_detection_priority (sample_config "gzip")
              (sample_env "" false DirNotExist) "img.tar"
              (sample_world {[ "img.tar.json" := mkFile true "sidecar:gzip" ]}))
    as (c & w' & added & Hrun & Htrace & Hcmd & _ & _ & Hside).
  exists w'. split; [exact Hrun|].
  destruct (Hside eq_refl eq_refl) as [Hyes _].
  assert (c = true) as ->.
  { apply (Hyes (mkFile true "sidecar:gzip") (sample_info "gzip"));
      reflexivity. }
  rewrite Htrace. exact Hcmd.
Defined.

(** C10: when the suffix does not decide, only the exact string [gzip] in
    the sidecar selects the gzip path.  Any other decoded value, the empty
    string of an absent field included, makes [restoreImage] run the plain
    [docker load], and nothing is logged on that account: the only report
    there can be is that of a failed load. *)
Theorem sidecar_gzip_is_exact (cfg : Config.t) (env : Env) (path : string)
    (w : World) (f : File) (info : ImageInfo.t) :
  HasSuffix path ".tar.gz" = false -> HasSuffix path ".tgz" = false ->
  fs w !! (path +:+ ".json") = Some f -> readable f = true ->
  json_Decode env (data f) = Some info ->
  ImageInfo.CompressType info <> "gzip" ->
  exists (w' : World) (added : list Event),
    restoreImage cfg env path w = (Ok tt, w') /\
    trace w' = trace w ++ added /\
    commands added = [Command "docker" ["load"; "-i"; path]] /\
    reports added =
      let r := exec env (Command "docker" ["load"; "-i"; path]) (fs w) in
      if fst (fst r) then [] else [FailedToLoad path (snd (fst r))].
Proof.
  intros H1 H2 Hf Hr Hd Hne.
  assert (Hc : detected env (fs w) path = false).
  { unfold detected. rewrite H1, H2, sidecar_lookup, Hf, Hr, Hd. cbn [orb].
    apply not_true_is_false. by rewrite is_gzip_spec. }
  eexists _, _. split; [apply restoreImage_eq|]. cbv zeta. cbn [trace].
  rewrite Hc. split; [done|].
  split; [apply commands_restoreEvents | apply reports_restoreEvents].
Qed.

Lemma sidecar_gzip_is_exact_witness :
  exists (w' : World) (added : list Event),
    restoreImage (sample_config "gzip") (sample_env "" false DirNotExist)
      "img.tar"
      (sample_world {[ "img.tar.json" := mkFile true "sidecar:GZIP" ]})
    = (Ok tt, w') /\
    trace w' = [] ++ added /\
    commands added = [Command "docker" ["load"; "-i"; "img.tar"]] /\
    reports added = [].
Proof.
  apply (sidecar_gzip_is_exact (sample_config "gzip")
           (sample_env "" false DirNotExist) "img.tar"
           (sample_world {[ "img.tar.json" := mkFile true "sidecar:GZIP" ]})
           (mkFile true "sidecar:GZIP") (sample_info "GZIP"));
    try reflexivity.
  discriminate.
Defined.

(** C4: an archive named by the backup of an item under [gzip] is loaded
    through [gunzip] when it is later restored, whatever the files around
    it. *)
Theorem gzip_backup_restores_as_gzip (backup restore : Config.t) (env : Env)
    (imageName : string) (now : Time) (w : World) :
  Config.CompressType backup = "gzip" ->
  let archive := tarballName backup imageName now in
  exists (w' : World) (added : list Event),
    restoreImage restore env archive w = (Ok tt, w') /\
    trace w' = trace w ++ added /\
    commands added =
      [Command "sh" ["-c"; "gunzip -c " +:+ archive +:+ " | docker load"]].
Proof.
  intros Hgz archive.
  assert (Hc : detected env (fs w) archive = true).
  { unfold detected, archive. rewrite tarballName_eq.
    apply is_gzip_spec in Hgz. rewrite Hgz.
    replace (dir_prefix (Config.BackupDir backup) +:+ safeImageName imageName +:+
             "-" +:+ Format_20060102_150405 now +:+ ".tar" +:+ ".gz")
      with ((dir_prefix (Config.BackupDir backup) +:+ safeImageName imageName +:+
             "-" +:+ Format_20060102_150405 now) +:+ ".tar.gz")
      by by rewrite !app_assoc_s.
    by rewrite HasSuffix_app. }
  eexists _, _. split; [apply restoreImage_eq|]. cbv zeta. cbn [trace].
  rewrite Hc. split; [done|]. apply commands_restoreEvents.
Qed.

Lemma gzip_backup_restores_as_gzip_witness :
  exists (w' : World) (added : list Event),
    restoreImage (sample_config "none") (sample_env "" false DirNotExist)
      "docker-backups/demo_1.0-20230615-120530.tar.gz" (sample_world ∅)
    = (Ok tt, w') /\
    trace w' = [] ++ added /\
    commands added =
      [Command "sh"
         ["-c";
          "gunzip -c docker-backups/demo_1.0-20230615-120530.tar.gz | docker load"]].
Proof.
  apply (gzip_backup_restores_as_gzip (sample_config "gzip")
           (sample_config "none") (sample_env "" false DirNotExist)
           "demo:1.0" sample_time (sample_world ∅)).
  reflexivity.
Defined.

(** ** The backup pipeline *)

Ltac run_pipeline :=
  unfold mbind, M_bind, mret, M_ret, when, cmd_Run, cmd_CombinedOutput,
    time_Now, os_Create, Encode;
  repeat first
    [ rewrite emit_eq
    | progress cbn [fs ticks trace fst snd negb] ].

Section BackupCases.
Variables (cfg : Config.t) (env : Env) (imageName : string) (w : World).

Let archive := tarballName cfg imageName (clock env (ticks w)).
Let sidecarPath := metadataPath archive.

Lemma backupImage_inspect_error :
  ImageInspectWithRaw env imageName = None ->
  backupImage cfg env imageName w =
  (Ok tt, mkWorld (fs w) (ticks w)
            (trace w ++
             (if Config.Verbose cfg then [Print (StartingBackup imageName)] else []) ++
             [LogPrintf (ErrorInspecting imageName)])).
Proof.
  intros Hi. unfold backupImage. rewrite Hi. run_pipeline.
  destruct (Config.Verbose cfg); run_pipeline; by rewrite <- ?app_assoc.
Qed.

Lemma backupImage_save_error (img : ImageInspect.t) (out : string)
    (fs1 : gmap string File) :
  ImageInspectWithRaw env imageName = Some img ->
  exec env (saveCommand cfg imageName archive) (fs w) = (false, out, fs1) ->
  backupImage cfg env imageName w =
  (Ok tt, mkWorld fs1 (S (ticks w))
            (trace w ++ saveEvents cfg imageName archive ++
             [LogPrintf (FailedToSave imageName)])).
Proof.
  intros Hi Hx. unfold backupImage, saveEvents. rewrite Hi. run_pipeline.
  destruct (Config.Verbose cfg); run_pipeline; fold archive; rewrite Hx;
    run_pipeline; by rewrite <- ?app_assoc.
Qed.

Lemma backupImage_create_error (img : ImageInspect.t) (out : string)
    (fs1 : gmap string File) :
  ImageInspectWithRaw env imageName = Some img ->
  exec env (saveCommand cfg imageName archive) (fs w) = (true, out, fs1) ->
  create_fails env fs1 sidecarPath = true ->
  backupImage cfg env imageName w =
  (Ok tt, mkWorld fs1 (S (S (ticks w)))
            (trace w ++ saveEvents cfg imageName archive ++
             [LogPrintf (FailedToCreateMetadata imageName)])).
Proof.
  intros Hi Hx Hc. unfold backupImage, saveEvents. rewrite Hi. run_pipeline.
  destruct (Config.Verbose cfg); run_pipeline; fold archive; rewrite Hx;
    run_pipeline; fold sidecarPath; rewrite Hc; run_pipeline;
    by rewrite <- ?app_assoc.
Qed.

Lemma backupImage_write_error (img : ImageInspect.t) (out : string)
    (fs1 : gmap string File) :
  ImageInspectWithRaw env imageName = Some img ->
  exec env (saveCommand cfg imageName archive) (fs w) = (true, out, fs1) ->
  create_fails env fs1 sidecarPath = false ->
  write_fails env (<[sidecarPath := mkFile true ""]> fs1) sidecarPath
    (json_Encode env
       (imageInfoOf cfg imageName img (clock env (S (ticks w))))) = true ->
  backupImage cfg env imageName w =
  (Ok tt, mkWorld (<[sidecarPath := mkFile true ""]> fs1) (S (S (ticks w)))
            (trace w ++ saveEvents cfg imageName archive ++
             [LogPrintf (FailedToWriteMetadata imageName)])).
Proof.
  intros Hi Hx Hc Hw. unfold backupImage, saveEvents. rewrite Hi. run_pipeline.
  unfold imageInfoOf in Hw.
  destruct (Config.Verbose cfg); run_pipeline; fold archive; rewrite Hx;
    run_pipeline; fold sidecarPath; rewrite Hc; run_pipeline;
    rewrite Hw; run_pipeline; by rewrite <- ?app_assoc.
Qed.

Lemma backupImage_success (img : ImageInspect.t) (out : string)
    (fs1 : gmap string File) :
  ImageInspectWithRaw env imageName = Some img ->
  exec env (saveCommand cfg imageName archive) (fs w) = (true, out, fs1) ->
  create_fails env fs1 sidecarPath = false ->
  write_fails env (<[sidecarPath := mkFile true ""]> fs1) sidecarPath
    (json_Encode env
       (imageInfoOf cfg imageName img (clock env (S (ticks w))))) = false ->
  backupImage cfg env imageName w =
  (Ok tt,
   mkWorld
     (<[sidecarPath :=
          mkFile true
            (json_Encode env
               (imageInfoOf cfg imageName img (clock env (S (ticks w)))))]>
        (<[sidecarPath := mkFile true ""]> fs1))
     (S (S (ticks w)))
     (trace w ++ saveEvents cfg imageName archive ++
      [Print (BackedUp imageName archive)])).
Proof.
  intros Hi Hx Hc Hw. unfold backupImage, saveEvents. rewrite Hi. run_pipeline.
  unfold imageInfoOf in Hw |- *.
  destruct (Config.Verbose cfg); run_pipeline; fold archive; rewrite Hx;
    run_pipeline; fold sidecarPath; rewrite Hc; run_pipeline;
    rewrite Hw; run_pipeline; by rewrite <- ?app_assoc.
Qed.

End BackupCases.

Lemma metadataPath_differs (archive : string) : metadataPath archive <> archive.
Proof.
  unfold metadataPath. intros E. apply (f_equal String.length) in E.
  rewrite length_app_s in E. simpl in E. lia.
Qed.

Lemma commands_saveEvents (cfg : Config.t) (imageName archive : string)
    (tail : list Event) :
  commands (saveEvents cfg imageName archive ++ tail)
  = saveCommand cfg imageName archive :: commands tail.
Proof. unfold saveEvents. by destruct (Config.Verbose cfg). Qed.

Lemma reports_saveEvents (cfg : Config.t) (imageName archive : string)
    (tail : list Event) :
  reports (saveEvents cfg imageName archive ++ tail) = reports tail.
Proof. unfold saveEvents. by destruct (Config.Verbose cfg). Qed.

Lemma saveEvents_not_backed_up (cfg : Config.t) (imageName archive : string)
    (o : Out) :
  (forall a b c, o <> SavingImage a b c) -> (forall a, o <> StartingBackup a) ->
  Print o ∉ saveEvents cfg imageName archive.
Proof.
  intros H1 H2. unfold saveEvents. destruct (Config.Verbose cfg); cbn [app];
    rewrite ?not_elem_of_cons; repeat split; try (intros [=]; subst);
    try by eapply H1. all: try by eapply H2. all: apply not_elem_of_nil.
Qed.

(** C7: once the save has succeeded, a sidecar that cannot be created or
    written is reported, the pipeline returns without its closing message,
    and the archive stays as the save left it: nothing removes or rewrites
    it, and no further subprocess runs. *)
Theorem metadata_failure_leaves_archive (cfg : Config.t) (env : Env)
    (imageName : string) (w : World) (img : ImageInspect.t) (out : string)
    (fs1 : gmap string File) :
  let archive := tarballName cfg imageName (clock env (ticks w)) in
  let sidecarPath := metadataPath archive in
  let created := <[sidecarPath := mkFile true ""]> fs1 in
  let bytes :=
    json_Encode env (imageInfoOf cfg imageName img (clock env (S (ticks w)))) in
  ImageInspectWithRaw env imageName = Some img ->
  exec env (saveCommand cfg imageName archive) (fs w) = (true, out, fs1) ->
  create_fails env fs1 sidecarPath = true \/
  write_fails env created sidecarPath bytes = true ->
  exists (w' : World) (added : list Event),
    backupImage cfg env imageName w = (Ok tt, w') /\
    trace w' = trace w ++ added /\
    fs w' !! archive = fs1 !! archive /\
    (create_fails env fs1 sidecarPath = true ->
     fs w' = fs1 /\ reports added = [FailedToCreateMetadata imageName]) /\
    (create_fails env fs1 sidecarPath = false ->
     (forall path, path <> sidecarPath -> fs w' !! path = fs1 !! path) /\
     reports added = [FailedToWriteMetadata imageName]) /\
    commands added = [saveCommand cfg imageName archive] /\
    Print (BackedUp imageName archive) ∉ added.
Proof.
  intros archive sidecarPath created bytes Hi Hx Hfail.
  destruct (create_fails env fs1 sidecarPath) eqn:Hc.
  - eexists _, _. split; [by eapply backupImage_create_error|].
    cbn [trace fs]. split; [done|]. split; [done|].
    split; [intros _; by rewrite reports_saveEvents|]. split; [done|].
    split; [by rewrite commands_saveEvents|].
    rewrite elem_of_app, list_elem_of_singleton. intros [H|[=]]; revert H.
    by apply saveEvents_not_backed_up.
  - destruct Hfail as [?|Hw]; [done|].
    eexists _, _. split; [by eapply backupImage_write_error|].
    cbn [trace fs]. split; [done|].
    split; [apply lookup_insert_ne, metadataPath_differs|].
    split; [done|]. split.
    { intros _. split; [|by rewrite reports_saveEvents].
      intros path Hp. by apply lookup_insert_ne. }
    split; [by rewrite commands_saveEvents|].
    rewrite elem_of_app, list_elem_of_singleton. intros [H|[=]]; revert H.
    by apply saveEvents_not_backed_up.
Qed.

Lemma metadata_failure_leaves_archive_witness :
  exists w' : World,
    backupImage (sample_config "gzip")
      (sample_env "docker-backups/demo_1.0-20230615-120530.tar.gz" true
         DirNotExist)
      "demo:1.0" (sample_world ∅) = (Ok tt, w') /\
    fs w' !! "docker-backups/demo_1.0-20230615-120530.tar.gz"
      = Some (mkFile true "image layers") /\
    fs w' !! "docker-backups/demo_1.0-20230615-120530.tar.gz.json" = None /\
    reports (trace w') = [FailedToCreateMetadata "demo:1.0"].
Proof.
  destruct (metadata_failure_leaves_archive (sample_config "gzip")
              (sample_env "docker-backups/demo_1.0-20230615-120530.tar.gz" true
                 DirNotExist)
              "demo:1.0" (sample_world ∅)
              (ImageInspect.mk "sha256:0a1b" ["demo:1.0"; "demo:latest"] 7340032)
              ""
              {[ "docker-backups/demo_1.0-20230615-120530.tar.gz"
                 := mkFile true "image layers" ]})
    as (w' & added & Hrun & Htrace & Harchive & Hcreate & _);
    [reflexivity | reflexivity | left; reflexivity |].
  exists w'. split; [exact Hrun|].
  destruct (Hcreate eq_refl) as [Hfs Hrep].
  rewrite Hfs, Htrace. cbn [sample_world trace app]. rewrite Hrep.
  repeat split; reflexivity.
Defined.

(** What [backupImage] does with the name, once the image was inspected. *)
Lemma backupImage_named (cfg : Config.t) (env : Env) (imageName : string)
    (w : World) (img : ImageInspect.t) :
  ImageInspectWithRaw env imageName = Some img ->
  let archive := tarballName cfg imageName (clock env (ticks w)) in
  let saved := exec env (saveCommand cfg imageName archive) (fs w) in
  let bytes :=
    json_Encode env (imageInfoOf cfg imageName img (clock env (S (ticks w)))) in
  exists (w' : World) (added : list Event),
    backupImage cfg env imageName w = (Ok tt, w') /\
    trace w' = trace w ++ added /\
    commands added = [saveCommand cfg imageName archive] /\
    (fst (fst saved) = false \/
     create_fails env (snd saved) (metadataPath archive) = true ->
     fs w' = snd saved) /\
    (fst (fst saved) = true ->
     create_fails env (snd saved) (metadataPath archive) = false ->
     (exists content,
        fs w' !! metadataPath archive = Some (mkFile true content)) /\
     (forall path,
        path <> metadataPath archive -> fs w' !! path = snd saved !! path) /\
     (reports added = [] ->
      fs w' !! metadataPath archive = Some (mkFile true bytes))).
Proof.
  intros Hi archive saved bytes.
  destruct saved as [[ok out] fs1] eqn:Hx. cbn [fst snd].
  destruct ok.
  - destruct (create_fails env fs1 (metadataPath archive)) eqn:Hc.
    + eexists _, _. split; [by eapply backupImage_create_error|].
      cbn [trace fs]. split; [done|].
      split; [by rewrite commands_saveEvents|]. by split.
    + destruct (write_fails env (<[metadataPath archive := mkFile true ""]> fs1)
                  (metadataPath archive) bytes) eqn:Hw.
      * eexists _, _. split; [by eapply backupImage_write_error|].
        cbn [trace fs]. split; [done|].
        split; [by rewrite commands_saveEvents|].
        split; [by intros [?|?]|]. intros _ _.
        split; [exists ""; apply lookup_insert_eq|].
        split; [intros path Hp; by apply lookup_insert_ne|].
        by rewrite reports_saveEvents.
      * eexists _, _. split; [by eapply backupImage_success|].
        cbn [trace fs]. split; [done|].
        split; [by rewrite commands_saveEvents|].
        split; [by intros [?|?]|]. intros _ _.
        split; [eexists; apply lookup_insert_eq|].
        split; [|intros _; apply lookup_insert_eq].
        intros path Hp. by rewrite !lookup_insert_ne.
  - eexists _, _. split; [by eapply backupImage_save_error|].
    cbn [trace fs]. split; [done|].
    split; [by rewrite commands_saveEvents|]. by split.
Qed.

(** C5: the archive is [{sanitized item}-{YYYYMMDD-HHMMSS}.tar] under the
    backup directory, [.gz] is appended exactly when the configured
    compression type is [gzip], and the sanitized item has no [/] and no
    [:] (each became [_]).  The stamp is the year on four digits, then the
    month, the day, a dash, the hour, the minute and the second on two
    digits each, of the clock reading [backupImage] takes after the
    inspection.  That path is the one handed to the save subprocess, and the
    sidecar [backupImage] creates after a successful save is the file at
    that path followed by [.json]: no other path of the file system is
    touched after the save. *)
Theorem archive_naming (cfg : Config.t) (imageName : string) (now : Time) :
  let safe := safeImageName imageName in
  let stamp := Format_20060102_150405 now in
  let archive := tarballName cfg imageName now in
  (safe = map_bytes sanitize_byte imageName /\
   contains_byte "/" safe = false /\ contains_byte ":" safe = false) /\
  (archive =
     dir_prefix (Config.BackupDir cfg) +:+ safe +:+ "-" +:+ stamp +:+ ".tar" +:+
     (if is_gzip (Config.CompressType cfg) then ".gz" else "") /\
   (dir_prefix (Config.BackupDir cfg) = "" \/
    HasSuffix (dir_prefix (Config.BackupDir cfg)) "/" = true)) /\
  (HasSuffix archive ".gz" = true <-> Config.CompressType cfg = "gzip") /\
  (valid now ->
   exists yyyy mo dd hh mi ss : string,
     stamp = yyyy +:+ mo +:+ dd +:+ "-" +:+ hh +:+ mi +:+ ss /\
     zero_padded yyyy 4 (Year now) /\ zero_padded mo 2 (Month now) /\
     zero_padded dd 2 (Day now) /\ zero_padded hh 2 (Hour now) /\
     zero_padded mi 2 (Minute now) /\ zero_padded ss 2 (Second now)) /\
  (forall (env : Env) (w : World) (img : ImageInspect.t),
     clock env (ticks w) = now ->
     ImageInspectWithRaw env imageName = Some img ->
     let save :=
       if is_gzip (Config.CompressType cfg)
       then Command "sh"
              ["-c"; "docker save " +:+ imageName +:+ " | gzip > " +:+ archive]
       else Command "docker" ["save"; "-o"; archive; imageName] in
     let saved := exec env save (fs w) in
     exists (w' : World) (added : list Event),
       backupImage cfg env imageName w = (Ok tt, w') /\
       trace w' = trace w ++ added /\
       commands added = [save] /\
       (fst (fst saved) = false \/
        create_fails env (snd saved) (archive +:+ ".json") = true ->
        fs w' = snd saved) /\
       (fst (fst saved) = true ->
        create_fails env (snd saved) (archive +:+ ".json") = false ->
        (exists content,
           fs w' !! (archive +:+ ".json") = Some (mkFile true content)) /\
        (forall path,
           path <> archive +:+ ".json" -> fs w' !! path = snd saved !! path) /\
        (reports added = [] ->
         fs w' !! (archive +:+ ".json") =
         Some (mkFile true
                 (json_Encode env
                    (imageInfoOf cfg imageName img
                       (clock env (S (ticks w))))))))).
Proof.
  cbv zeta. split; [|split; [|split; [|split]]].
  - split; [apply safeImageName_bytes|].
    split; apply safeImageName_clean; auto.
  - split; [apply tarballName_eq | apply dir_prefix_shape].
  - rewrite <- is_gzip_spec, tarballName_eq.
    destruct (is_gzip (Config.CompressType cfg)).
    + split; [done|]. intros _. rewrite <- !app_assoc_s. apply HasSuffix_app.
    + rewrite app_empty_r, <- !app_assoc_s, tar_not_gz. done.
  - apply Format_fields.
  - intros env w img <- Hi. exact (backupImage_named cfg env imageName w img Hi).
Qed.

Lemma archive_naming_witness :
  tarballName (Config.mk "docker-backups" 3 false "gzip")
    "registry.example.com/app:v2" (mkTime 2023 6 15 12 5 30)
  = "docker-backups/registry.example.com_app_v2-20230615-120530.tar.gz" /\
  (exists yyyy mo dd hh mi ss : string,
     Format_20060102_150405 (mkTime 2023 6 15 12 5 30)
     = yyyy +:+ mo +:+ dd +:+ "-" +:+ hh +:+ mi +:+ ss /\
     zero_padded yyyy 4 2023 /\ zero_padded mo 2 6 /\ zero_padded dd 2 15 /\
     zero_padded hh 2 12 /\ zero_padded mi 2 5 /\ zero_padded ss 2 30) /\
  exists w' : World,
    backupImage (sample_config "gzip")
      (sample_env "docker-backups/demo_1.0-20230615-120530.tar.gz" false
         DirNotExist)
      "demo:1.0" (sample_world ∅) = (Ok tt, w') /\
    commands (trace w') =
      [Command "sh"
         ["-c";
          "docker save demo:1.0 | gzip > docker-backups/demo_1.0-20230615-120530.tar.gz"]] /\
    is_Some (fs w' !! "docker-backups/demo_1.0-20230615-120530.tar.gz.json").
Proof.
  split; [reflexivity|]. split.
  - destruct (archive_naming (Config.mk "docker-backups" 3 false "gzip")
                "registry.example.com/app:v2" (mkTime 2023 6 15 12 5 30))
      as (_ & _ & _ & Hstamp & _).
    apply Hstamp. unfold valid. simpl. lia.
  - destruct (archive_naming (sample_config "gzip") "demo:1.0" sample_time)
      as (_ & _ & _ & _ & Hrun).
    destruct (Hrun (sample_env "docker-backups/demo_1.0-20230615-120530.tar.gz"
                      false DirNotExist)
                (sample_world ∅)
                (ImageInspect.mk "sha256:0a1b" ["demo:1.0"; "demo:latest"]
                   7340032))
      as (w' & added & Hw' & Htrace & Hcmd & _ & Hside);
      [reflexivity | reflexivity |].
    exists w'. split; [exact Hw'|]. split.
    + rewrite Htrace. exact Hcmd.
    + destruct Hside as [[content Hc] _]; [reflexivity | reflexivity |].
      exists (mkFile true content). exact Hc.
Defined.

(** ** The fan-out loop *)
Module OrchestratorFacts.
Import Orchestrator.

Section Counting.
Context {Item : Type}.
Implicit Types (ws : list (Item * Goroutine)) (p q : Goroutine -> bool).

Lemma count_app p ws1 ws2 : count p (ws1 ++ ws2) = count p ws1 + count p ws2.
Proof. induction ws1 as [|g ws1 IH]; simpl; [done|]. rewrite IH. lia. Qed.

Lemma count_insert p ws k (item : Item) (g g' : Goroutine) :
  ws !! k = Some (item, g) ->
  count p (<[k := (item, g')]> ws) + Nat.b2n (p g)
  = count p ws + Nat.b2n (p g').
Proof.
  revert k. induction ws as [|x ws IH]; intros [|k] Hk; simplify_eq/=.
  - destruct (p g), (p g'); simpl; lia.
  - specialize (IH _ Hk). lia.
Qed.

Lemma count_le p q ws :
  (forall g, p g = true -> q g = true) -> count p ws <= count q ws.
Proof.
  intros Hpq. induction ws as [|x ws IH]; simpl; [done|].
  destruct (p (snd x)) eqn:E; [rewrite (Hpq _ E)|]; lia.
Qed.

Lemma count_zero p ws k (x : Item * Goroutine) :
  count p ws = 0 -> ws !! k = Some x -> p (snd x) = false.
Proof.
  revert k. induction ws as [|y ws IH]; intros [|k] H0 Hk; simplify_eq/=.
  - by destruct (p (snd x)).
  - apply (IH k); [|done]. lia.
Qed.

Lemma count_pos p ws :
  0 < count p ws -> exists k x, ws !! k = Some x /\ p (snd x) = true.
Proof.
  induction ws as [|y ws IH]; simpl; [lia|].
  destruct (p (snd y)) eqn:E.
  - intros _. by exists 0, y.
  - intros H. destruct IH as (k & x & ? & ?); [lia|]. by exists (S k), x.
Qed.

Lemma fmap_fst_insert ws k (item : Item) (g g' : Goroutine) :
  ws !! k = Some (item, g) ->
  fst <$> <[k := (item, g')]> ws = fst <$> ws.
Proof.
  intros Hk. rewrite list_fmap_insert. apply list_insert_id.
  by rewrite list_lookup_fmap, Hk.
Qed.


Lemma staged_insert_same p ws k j (item : Item) (g g' : Goroutine) :
  ws !! k = Some (item, g) -> p g = p g' ->
  staged p (<[k := (item, g')]> ws) j <-> staged p ws j.
Proof.
  intros Hk Hp. unfold staged. destruct (decide (k = j)) as [<-|Hne].
  - rewrite list_lookup_insert_eq by by eapply lookup_lt_Some.
    rewrite Hk. split; intros (x & [= <-] & Hx); eexists; (split; [done|]);
      simpl in *; congruence.
  - by rewrite list_lookup_insert_ne.
Qed.

Lemma staged_insert_new p ws k j (item : Item) (g g' : Goroutine) :
  ws !! k = Some (item, g) -> p g = false -> p g' = true ->
  staged p (<[k := (item, g')]> ws) j <-> j = k \/ staged p ws j.
Proof.
  intros Hk Hp Hp'. unfold staged. destruct (decide (k = j)) as [<-|Hne].
  - rewrite list_lookup_insert_eq by by eapply lookup_lt_Some.
    split; [by left|]. intros _. by eexists.
  - rewrite list_lookup_insert_ne by done. split; [by right|].
    by intros [->|?].
Qed.

Lemma staged_snoc p ws j (x : Item * Goroutine) :
  p (snd x) = false -> staged p (ws ++ [x]) j <-> staged p ws j.
Proof.
  intros Hp. unfold staged. split; intros (y & Hy & Hpy).
  - apply lookup_app_Some in Hy as [Hy|[_ Hy]]; [by eexists|].
    apply list_lookup_singleton_Some in Hy as [_ <-]. congruence.
  - exists y. split; [|done]. by apply lookup_app_l_Some.
Qed.

Lemma not_staged p ws k (item : Item) (g : Goroutine) :
  ws !! k = Some (item, g) -> p g = false -> ~ staged p ws k.
Proof. intros Hk Hp (x & Hx & Hpx). simplify_eq/=. congruence. Qed.

End Counting.

Section Facts.
Context {Item W : Type}.
Variables (task : Item -> W -> W) (notice : W -> W).
Variables (items : list Item) (limit : Z).

Local Abbreviation step := (Orchestrator.step task notice limit).
Local Abbreviation invariant := (Orchestrator.invariant task notice items limit).
Local Abbreviation effects := (Orchestrator.effects task items).

Lemma todo_loop (rest : list Item) : todo (loop rest) = rest.
Proof. by destruct rest. Qed.

Lemma main_slot_loop (rest : list Item) : main_slot (loop rest) = 0.
Proof. by destruct rest. Qed.

Lemma main_wait_loop (rest : list Item) : main_wait (loop rest) = 0%Z.
Proof. by destruct rest. Qed.

Lemma loop_not_end (rest : list Item) : loop rest <> AtEnd.
Proof. by destruct rest. Qed.

Lemma invariant_init (w0 : W) : (0 <= limit)%Z -> invariant w0 (init items w0).
Proof.
  intros Hl. unfold init. split; cbn [main workers slots waiting invoked completed world].
  - by rewrite todo_loop.
  - by rewrite main_slot_loop.
  - lia.
  - by rewrite main_wait_loop.
  - constructor.
  - intros k. split; [by intros ?%elem_of_nil|]. by intros (g & ? & _).
  - constructor.
  - intros k. split; [by intros ?%elem_of_nil|]. by intros (g & ? & _).
  - by destruct items.
  - intros E. by apply loop_not_end in E.
Qed.

Lemma effects_snoc (w0 : W) (cp : list nat) (k : nat) (item : Item) :
  items !! k = Some item ->
  effects w0 (cp ++ [k]) = task item (effects w0 cp).
Proof. intros Hk. unfold Orchestrator.effects. by rewrite foldl_app; simpl; rewrite Hk. Qed.

Lemma worker_item (pc : MainPC) (ws : list (Item * Goroutine)) (k : nat)
    (item : Item) (g : Goroutine) :
  items = (fst <$> ws) ++ todo pc -> ws !! k = Some (item, g) ->
  items !! k = Some item.
Proof.
  intros -> Hk. apply lookup_app_l_Some. by rewrite list_lookup_fmap, Hk.
Qed.

Lemma invariant_step (w0 : W) (s s' : State) :
  invariant w0 s -> step s s' -> invariant w0 s'.
Proof.
  intros [Hitems Hslots Hlimit Hwait Hinv1 Hinv Hcp1 Hcp Hworld Hend] Hstep.
  destruct Hstep; cbn [main workers slots waiting invoked completed world] in *.
  - (* wg.Add(1) *)
    split; cbn [main workers slots waiting invoked completed world main_slot main_wait todo] in *;
      try done; lia.
  - (* semaphore <- struct{}{} *)
    split; cbn [main workers slots waiting invoked completed world main_slot main_wait todo] in *;
      try done; lia.
  - (* go func *)
    split; cbn [main workers slots waiting invoked completed world main_slot main_wait todo] in *.
    + rewrite fmap_app, todo_loop, <- app_assoc. done.
    + rewrite count_app, main_slot_loop. simpl. lia.
    + done.
    + rewrite count_app, main_wait_loop. simpl. lia.
    + done.
    + intros k. by rewrite staged_snoc.
    + done.
    + intros k. by rewrite staged_snoc.
    + by destruct rest.
    + intros E. by apply loop_not_end in E.
  - (* wg.Wait() *)
    split; cbn [main workers slots waiting invoked completed world main_slot main_wait todo] in *;
      try done.
    + by rewrite Hworld.
    + intros _. lia.
  - (* the task is called *)
    pose proof (count_insert holds_slot _ _ _ _ InTask H) as C1.
    pose proof (count_insert pending _ _ _ _ InTask H) as C2.
    split; cbn [main workers slots waiting invoked completed world] in *.
    + by rewrite (fmap_fst_insert _ _ _ _ _ H).
    + simpl in C1. lia.
    + done.
    + simpl in C2. lia.
    + apply NoDup_app. split; [done|]. split; [|apply NoDup_singleton].
      intros j Hj ->%list_elem_of_singleton. apply Hinv in Hj.
      by eapply not_staged in Hj.
    + intros j. rewrite elem_of_app, list_elem_of_singleton, Hinv.
      rewrite (staged_insert_new _ _ _ _ _ _ _ H) by done. tauto.
    + done.
    + intros j. by rewrite (staged_insert_same _ _ _ _ _ _ _ H).
    + done.
    + intros E. specialize (Hend E). simpl in C2. lia.
  - (* the task returns *)
    pose proof (count_insert holds_slot _ _ _ _ TaskReturned H) as C1.
    pose proof (count_insert pending _ _ _ _ TaskReturned H) as C2.
    split; cbn [main workers slots waiting invoked completed world] in *.
    + by rewrite (fmap_fst_insert _ _ _ _ _ H).
    + simpl in C1. lia.
    + done.
    + simpl in C2. lia.
    + done.
    + intros j. by rewrite (staged_insert_same _ _ _ _ _ _ _ H).
    + apply NoDup_app. split; [done|]. split; [|apply NoDup_singleton].
      intros j Hj ->%list_elem_of_singleton. apply Hcp in Hj.
      by eapply not_staged in Hj.
    + intros j. rewrite elem_of_app, list_elem_of_singleton, Hcp.
      rewrite (staged_insert_new _ _ _ _ _ _ _ H) by done. tauto.
    + rewrite (effects_snoc _ _ _ item) by by eapply worker_item.
      destruct pc; try by rewrite Hworld.
      specialize (Hend eq_refl). by apply (count_zero _ _ _ _ Hend) in H.
    + intros E. specialize (Hend E). simpl in C2. lia.
  - (* <-semaphore *)
    pose proof (count_insert holds_slot _ _ _ _ SlotReleased H) as C1.
    pose proof (count_insert pending _ _ _ _ SlotReleased H) as C2.
    split; cbn [main workers slots waiting invoked completed world] in *.
    + by rewrite (fmap_fst_insert _ _ _ _ _ H).
    + simpl in C1. lia.
    + lia.
    + simpl in C2. lia.
    + done.
    + intros j. by rewrite (staged_insert_same _ _ _ _ _ _ _ H).
    + done.
    + intros j. by rewrite (staged_insert_same _ _ _ _ _ _ _ H).
    + done.
    + intros E. specialize (Hend E). simpl in C2. lia.
  - (* wg.Done() *)
    pose proof (count_insert holds_slot _ _ _ _ Finished H) as C1.
    pose proof (count_insert pending _ _ _ _ Finished H) as C2.
    split; cbn [main workers slots waiting invoked completed world] in *.
    + by rewrite (fmap_fst_insert _ _ _ _ _ H).
    + simpl in C1. lia.
    + done.
    + simpl in C2. lia.
    + done.
    + intros j. by rewrite (staged_insert_same _ _ _ _ _ _ _ H).
    + done.
    + intros j. by rewrite (staged_insert_same _ _ _ _ _ _ _ H).
    + done.
    + intros E. specialize (Hend E). simpl in C2. lia.
Qed.

Lemma invariant_reachable (w0 : W) (s : State) :
  (0 <= limit)%Z -> rtc step (init items w0) s -> invariant w0 s.
Proof.
  intros Hl Hs.
  apply (rtc_ind_r (R:=step) (fun s => invariant w0 s) (init items w0));
    [..|done].
  - by apply invariant_init.
  - intros y z _ Hyz Hy. by eapply invariant_step.
Qed.

Lemma in_flight_bound (w0 : W) (s : State) :
  invariant w0 s -> (Z.of_nat (in_flight s) <= limit)%Z.
Proof.
  intros [_ Hslots Hlimit _ _ _ _ _ _ _]. unfold in_flight.
  assert (count in_task (workers s) <= count holds_slot (workers s)).
  { apply count_le. by intros []. }
  lia.
Qed.


Lemma all_finished (ws : list (Item * Goroutine)) :
  count pending ws = 0 -> Forall (fun x => snd x = Finished) ws.
Proof.
  intros H0. apply Forall_lookup. intros k x Hk.
  apply (count_zero _ _ _ _ H0) in Hk. by destruct (snd x).
Qed.

Lemma staged_all (p : Goroutine -> bool) (ws : list (Item * Goroutine)) (k : nat) :
  p Finished = true -> Forall (fun x => snd x = Finished) ws ->
  staged p ws k <-> k < length ws.
Proof.
  intros Hp Hall. unfold staged. split.
  - intros (x & Hx & _). by eapply lookup_lt_Some.
  - intros Hk. apply lookup_lt_is_Some in Hk as [x Hx]. exists x.
    split; [done|]. rewrite Forall_lookup in Hall. by rewrite (Hall k x Hx).
Qed.

Lemma at_end (w0 : W) (s : State) :
  invariant w0 s -> main s = AtEnd ->
  fst <$> workers s = items /\
  Forall (fun x => snd x = Finished) (workers s) /\
  invoked s ≡ₚ seq 0 (length items) /\
  completed s ≡ₚ seq 0 (length items) /\
  world s = notice (effects w0 (completed s)).
Proof.
  intros [Hitems _ _ _ Hinv1 Hinv Hcp1 Hcp Hworld Hend] E.
  rewrite E in *. simpl in Hitems. rewrite app_nil_r in Hitems.
  pose proof (all_finished _ (Hend eq_refl)) as Hall.
  assert (Hlen : length (workers s) = length items)
    by (by rewrite Hitems, length_fmap).
  split; [done|]. split; [done|]. repeat split; [..|done].
  - apply NoDup_Permutation; [done|apply NoDup_seq|].
    intros k. rewrite Hinv, staged_all, elem_of_seq by done. lia.
  - apply NoDup_Permutation; [done|apply NoDup_seq|].
    intros k. rewrite Hcp, staged_all, elem_of_seq by done. lia.
Qed.

Lemma worker_next_sound (s s' : State) : worker_next task s = Some s' -> step s s'.
Proof.
  unfold worker_next. destruct s as [pc ws sl wg inv cp w]; simpl.
  destruct (list_find _ ws) as [[k [item g]]|] eqn:Hfind; [|done].
  apply list_find_Some in Hfind as (Hk & _ & _).
  destruct g; try done.
  - intros [= <-]. by apply step_invoke.
  - intros [= <-]. by apply step_return.
  - destruct sl as [|sl]; [done|]. intros [= <-]. by apply step_release.
  - intros [= <-]. by apply step_done.
Qed.

Lemma next_sound (s s' : State) : next task notice limit s = Some s' -> step s s'.
Proof.
  unfold next. destruct s as [pc ws sl wg inv cp w]; simpl.
  destruct pc as [item rest|item rest|item rest| |].
  - intros [= <-]. apply step_add.
  - destruct (Z.ltb_spec (Z.of_nat sl) limit).
    + intros [= <-]. by apply step_send.
    + apply worker_next_sound.
  - intros [= <-]. apply step_go.
  - destruct (Z.eqb_spec wg 0) as [->|].
    + intros [= <-]. apply step_wait.
    + apply worker_next_sound.
  - done.
Qed.

Lemma run_sound (fuel : nat) (s : State) :
  rtc step s (run task notice limit fuel s).
Proof.
  revert s. induction fuel as [|fuel IH]; intros s; simpl; [done|].
  destruct (next task notice limit s) as [s'|] eqn:E; [|done].
  eapply rtc_l; [by apply next_sound|apply IH].
Qed.

Lemma count_lookup (p : Goroutine -> bool) (ws : list (Item * Goroutine))
    (k : nat) (x : Item * Goroutine) :
  ws !! k = Some x -> p (snd x) = true -> 0 < count p ws.
Proof.
  intros Hk Hp. destruct (count p ws) eqn:E; [|lia].
  apply (count_zero _ _ _ _ E) in Hk. congruence.
Qed.

Lemma worker_next_progress (s : State) :
  0 < count pending (workers s) ->
  slots s = count holds_slot (workers s) + main_slot (main s) ->
  is_Some (worker_next task s).
Proof.
  intros Hpos Hslots. unfold worker_next.
  destruct (count_pos _ _ Hpos) as (k & x & Hk & Hp).
  destruct (list_find (fun x => pending (snd x) = true) (workers s))
    as [[j [item g]]|] eqn:Hfind.
  - apply list_find_Some in Hfind as (Hj & Hg & _). simpl in Hg.
    destruct g; try done.
    assert (0 < count holds_slot (workers s)) by by eapply count_lookup.
    destruct (slots s); [lia|done].
  - apply list_find_None in Hfind. rewrite Forall_lookup in Hfind.
    by destruct (Hfind k x Hk).
Qed.

(** The loop never blocks for good while [limit] is at least one. *)
Lemma progress (w0 : W) (s : State) :
  (1 <= limit)%Z -> invariant w0 s -> main s <> AtEnd ->
  is_Some (next task notice limit s).
Proof.
  intros Hl [_ Hslots _ Hwait _ _ _ _ _ _] Hne. unfold next.
  destruct (main s) as [item rest|item rest|item rest| |] eqn:E; try done.
  - destruct (Z.ltb_spec (Z.of_nat (slots s)) limit); [done|].
    apply worker_next_progress; [|by rewrite E].
    assert (0 < count holds_slot (workers s)) as Hh by (simpl in *; lia).
    destruct (count_pos _ _ Hh) as (k & x & Hk & Hp).
    eapply count_lookup; [done|]. by destruct (snd x).
  - destruct (Z.eqb_spec (waiting s) 0); [done|].
    apply worker_next_progress; [|by rewrite E]. simpl in *. lia.
Qed.



(** With [MaxWorkers] at zero the channel has no buffer and the first send
    blocks for ever: a loop over a non-empty list never reaches its end. *)
Remark zero_limit_blocks (w0 : W) (s : State) :
  (limit <= 0)%Z -> items <> [] ->
  rtc step (init items w0) s -> main s <> AtEnd.
Proof.
  intros Hl Hne Hs.
  assert (workers s = [] /\
          exists item rest, main s = AtAdd item rest \/ main s = AtSend item rest)
    as (_ & item & rest & [-> | ->]); [|done..].
  apply (rtc_ind_r (R:=step)
           (fun s => workers s = [] /\
                     exists item rest,
                       main s = AtAdd item rest \/ main s = AtSend item rest)
           (init items w0)); [..|done].
  - split; [done|]. unfold init; simpl. destruct items as [|x r]; [done|].
    exists x, r. by left.
  - intros y z _ Hyz (Hws & item & rest & Hpc).
    destruct Hyz; cbn [main workers] in *; subst;
      try (by rewrite lookup_nil in H);
      try (destruct Hpc; discriminate).
    + split; [done|]. eexists _, _. by right.
    + lia.
Qed.

End Facts.
End OrchestratorFacts.



(** ** Failures stay inside the pipeline that met them *)



Lemma restoreImage_isolated (cfg : Config.t) (env : Env) (path : string)
    (w : World) :
  exists (w' : World) (added : list Event),
    restoreImage cfg env path w = (Ok tt, w') /\
    trace w' = trace w ++ added /\
    isolated (restore_failure env path w) added.
Proof.
  eexists _, _. split; [apply restoreImage_eq|]. cbv zeta. cbn [trace].
  split; [done|]. unfold restore_failure, isolated.
  rewrite reports_restoreEvents.
  destruct (fst (fst (exec env _ (fs w)))); [done|]. split; [done|].
  unfold restoreEvents. rewrite !app_assoc. apply last_snoc.
Qed.






(** ** The command prologues *)

Lemma resolveInput_reads (env : Env) (flags : Flags) (args names : list string)
    (w w1 : World) :
  resolveInput env flags args w = (Ok names, w1) -> w1 = w.
Proof.
  unfold resolveInput, log_Fatal, os_Open. unfold mbind, M_bind, mret, M_ret.
  destruct (stdin flags).
  - destruct (snd (scanNames env (stdin_data env))); by intros [= _ <-].
  - destruct (negb (String.eqb (file flags) "")); [|by intros [= _ <-]].
    destruct (open_file (fs w) (file flags)) as [bytes|]; [|done].
    destruct (snd (scanNames env bytes)); by intros [= _ <-].
Qed.

(** C8: when no work item is resolved, [runBackup] and [runRestore] end in
    [log.Fatal] at once.  The fatal message is the only thing they add to
    the trace: no directory is made, no subprocess runs, the files are
    untouched, and the fan-out loop has no state to start from. *)
Theorem empty_input_is_fatal (cfg : Config.t) (env : Env) (flags : Flags)
    (args : list string) (w w1 : World) :
  resolveInput env flags args w = (Ok [], w1) ->
  (runBackup_setup cfg env flags args w =
     (Exit 1, mkWorld (fs w) (ticks w) (trace w ++ [LogFatal NoImageNames])) /\
   runBackup_start cfg env flags args w = None) /\
  (runRestore_setup env flags args w =
     (Exit 1, mkWorld (fs w) (ticks w) (trace w ++ [LogFatal NoTarballPaths])) /\
   runRestore_start env flags args w = None).
Proof.
  intros Hr. pose proof (resolveInput_reads _ _ _ _ _ _ Hr) as ->.
  unfold runBackup_start, runRestore_start, runBackup_setup, runRestore_setup.
  unfold mbind, M_bind. rewrite Hr. cbn [length Nat.eqb]. by unfold log_Fatal.
Qed.

Lemma empty_input_is_fatal_witness :
  runBackup_start (sample_config "gzip") (sample_env "" false DirNotExist)
    (mkFlags "" false) [] (sample_world ∅) = None /\
  runRestore_start (sample_env "" false DirNotExist)
    (mkFlags "" false) [] (sample_world ∅) = None.
Proof.
  destruct (empty_input_is_fatal (sample_config "gzip")
              (sample_env "" false DirNotExist) (mkFlags "" false) []
              (sample_world ∅) (sample_world ∅) eq_refl)
    as [[_ Hb] [_ Hr]].
  split; [exact Hb | exact Hr].
Defined.

(** ** The catalog *)

Lemma suffix_last_byte (a b : string) (c d : ascii) :
  HasSuffix (a +:+ String c "") (b +:+ String d "") = true -> c = d.
Proof.
  intros [p E]%HasSuffix_inv. rewrite <- app_assoc_s in E.
  by apply app_last_byte in E.
Qed.

Lemma json_not_archive (name : string) : isArchive (name +:+ ".json") = false.
Proof.
  unfold isArchive. change ".json" with (".jso" +:+ "n").
  rewrite <- app_assoc_s.
  destruct (HasSuffix _ ".tar") eqn:E1.
  { change ".tar" with (".ta" +:+ "r") in E1. by apply suffix_last_byte in E1. }
  destruct (HasSuffix _ ".tar.gz") eqn:E2.
  { change ".tar.gz" with (".tar.g" +:+ "z") in E2. by apply suffix_last_byte in E2. }
  destruct (HasSuffix _ ".tgz") eqn:E3.
  { change ".tgz" with (".tg" +:+ "z") in E3. by apply suffix_last_byte in E3. }
  done.
Qed.

Lemma TrimSuffix_restore (name suffix : string) :
  HasSuffix name suffix = true -> name = TrimSuffix name suffix +:+ suffix.
Proof. intros [p ->]%HasSuffix_inv. by rewrite TrimSuffix_app. Qed.

Lemma foldl_insert_list_to_map {V} (l : list (string * V)) :
  foldl (fun (m : gmap string V) kv => <[fst kv := snd kv]> m) ∅ l
  = list_to_map (reverse l).
Proof.
  induction l as [|x l IH] using rev_ind; [done|].
  rewrite foldl_app, reverse_snoc. simpl. by rewrite IH.
Qed.

Section CatalogFacts.
Variables (cfg : Config.t) (env : Env) (files : gmap string File).

Lemma scanEntry_tarFiles (c : Catalog) (file : DirEntry.t) :
  tarFiles (scanEntry cfg env files c file) =
  match tar_of file with
  | Some kv => <[fst kv := snd kv]> (tarFiles c)
  | None => tarFiles c
  end.
Proof.
  unfold scanEntry, tar_of. destruct (DirEntry.IsDir file); [done|].
  destruct (DirEntry.Info file) as [info|]; [|done].
  destruct (isArchive (DirEntry.Name file)); [done|].
  destruct (HasSuffix (DirEntry.Name file) ".json"); [|done].
  destruct (open_file files _) as [bytes|]; [|done].
  by destruct (json_Decode env bytes).
Qed.

Lemma scanEntry_metaFiles (c : Catalog) (file : DirEntry.t) :
  metaFiles (scanEntry cfg env files c file) =
  match meta_of cfg env files file with
  | Some kv => <[fst kv := snd kv]> (metaFiles c)
  | None => metaFiles c
  end.
Proof.
  unfold scanEntry, meta_of. destruct (DirEntry.IsDir file); [done|].
  destruct (DirEntry.Info file) as [info|]; [|done].
  destruct (isArchive (DirEntry.Name file)); [done|].
  destruct (HasSuffix (DirEntry.Name file) ".json"); [|done].
  destruct (open_file files _) as [bytes|]; [|done].
  by destruct (json_Decode env bytes).
Qed.

Lemma scanDir_tarFiles (entries : list DirEntry.t) :
  tarFiles (scanDir cfg env files entries)
  = list_to_map (reverse (omap tar_of entries)).
Proof.
  rewrite <- foldl_insert_list_to_map. unfold scanDir.
  induction entries as [|x l IH] using rev_ind; [done|].
  rewrite foldl_app, omap_app, foldl_app. cbn [foldl].
  rewrite scanEntry_tarFiles, IH. simpl. by destruct (tar_of x).
Qed.

Lemma scanDir_metaFiles (entries : list DirEntry.t) :
  metaFiles (scanDir cfg env files entries)
  = list_to_map (reverse (omap (meta_of cfg env files) entries)).
Proof.
  rewrite <- foldl_insert_list_to_map. unfold scanDir.
  induction entries as [|x l IH] using rev_ind; [done|].
  rewrite foldl_app, omap_app, foldl_app. cbn [foldl].
  rewrite scanEntry_metaFiles, IH. simpl. by destruct (meta_of cfg env files x).
Qed.

End CatalogFacts.

Lemma NoDup_omap_fst {A K V} (f : A -> option (K * V)) (name : A -> string)
    (l : list A) :
  (forall a b k v v', f a = Some (k, v) -> f b = Some (k, v') -> name a = name b) ->
  NoDup (name <$> l) -> NoDup (fst <$> omap f l).
Proof.
  intros Hinj. induction l as [|a l IH]; [constructor|].
  rewrite fmap_cons, NoDup_cons. intros [Ha Hl]. simpl.
  destruct (f a) as [[k v]|] eqn:Ea; [|by apply IH].
  rewrite fmap_cons, NoDup_cons. split; [|by apply IH]. cbn [fst].
  intros Hk. apply list_elem_of_fmap in Hk as ([k' v'] & -> & Hin).
  apply list_elem_of_omap in Hin as (b & Hb & Eb). cbn [fst] in *.
  apply Ha. rewrite (Hinj a b _ _ _ Ea Eb). by apply list_elem_of_fmap_2.
Qed.

Lemma tar_of_Some (file : DirEntry.t) (name : string) (info : FileInfo.t) :
  tar_of file = Some (name, info) <->
  DirEntry.Name file = name /\ DirEntry.IsDir file = false /\
  DirEntry.Info file = Some info /\ isArchive name = true.
Proof.
  unfold tar_of. split.
  - destruct (DirEntry.IsDir file); [done|].
    destruct (DirEntry.Info file) as [i|]; [|done].
    destruct (isArchive (DirEntry.Name file)) eqn:E; [|done].
    by intros [= <- <-].
  - by intros (<- & -> & -> & ->).
Qed.

Lemma meta_of_Some (cfg : Config.t) (env : Env) (files : gmap string File)
    (file : DirEntry.t) (name : string) (m : ImageInfo.t) :
  meta_of cfg env files file = Some (name, m) <->
  decodes_for cfg env files name file m.
Proof.
  unfold meta_of, decodes_for. split.
  - destruct (DirEntry.IsDir file); [done|].
    destruct (DirEntry.Info file) as [i|]; [|done].
    destruct (isArchive (DirEntry.Name file)); [done|].
    destruct (HasSuffix (DirEntry.Name file) ".json") eqn:Hj; [|done].
    destruct (open_file files _) as [bytes|]; [|done].
    destruct (json_Decode env bytes) as [x|] eqn:Hd; [|done].
    intros [= <- <-]. split; [by apply TrimSuffix_restore|].
    split; [done|]. split; [done|]. by exists bytes.
  - intros (Hn & -> & [i ->] & bytes & -> & ->).
    rewrite Hn, json_not_archive, HasSuffix_app. by rewrite TrimSuffix_app.
Qed.

Section CatalogLookup.
Variables (cfg : Config.t) (env : Env) (files : gmap string File).
Variable entries : list DirEntry.t.
Hypothesis distinct : NoDup (DirEntry.Name <$> entries).

Lemma tarFiles_lookup (e : DirEntry.t) (info : FileInfo.t) :
  e ∈ entries -> DirEntry.IsDir e = false -> DirEntry.Info e = Some info ->
  isArchive (DirEntry.Name e) = true ->
  tarFiles (scanDir cfg env files entries) !! DirEntry.Name e = Some info.
Proof.
  intros He Hd Hi Ha. rewrite scanDir_tarFiles.
  apply elem_of_list_to_map_1.
  - rewrite fmap_reverse, reverse_Permutation.
    apply (NoDup_omap_fst _ DirEntry.Name); [|done].
    intros a b k v v' [<- _]%tar_of_Some [<- _]%tar_of_Some. done.
  - apply elem_of_reverse, list_elem_of_omap. exists e. split; [done|].
    by apply tar_of_Some.
Qed.

Lemma metaFiles_lookup (name : string) (s : DirEntry.t) (m : ImageInfo.t) :
  s ∈ entries -> decodes_for cfg env files name s m ->
  metaFiles (scanDir cfg env files entries) !! name = Some m.
Proof.
  intros Hs Hdec. rewrite scanDir_metaFiles.
  apply elem_of_list_to_map_1.
  - rewrite fmap_reverse, reverse_Permutation.
    apply (NoDup_omap_fst _ DirEntry.Name); [|done].
    intros a b k v v' [Ha _]%meta_of_Some [Hb _]%meta_of_Some. congruence.
  - apply elem_of_reverse, list_elem_of_omap. exists s. split; [done|].
    by apply meta_of_Some.
Qed.

End CatalogLookup.

Lemma metaFiles_lookup_inv (cfg : Config.t) (env : Env)
    (files : gmap string File) (entries : list DirEntry.t) (name : string)
    (m : ImageInfo.t) :
  metaFiles (scanDir cfg env files entries) !! name = Some m ->
  exists s, s ∈ entries /\ decodes_for cfg env files name s m.
Proof.
  rewrite scanDir_metaFiles. intros H%elem_of_list_to_map_2.
  apply elem_of_reverse, list_elem_of_omap in H as (s & Hs & E).
  exists s. split; [done|]. by apply meta_of_Some.
Qed.

(** ** The order of a [range] over a map *)

Lemma pick_Permutation {A} (n : nat) (seed : list nat) (l : list A) :
  length l = n -> pick n seed l ≡ₚ l.
Proof.
  revert seed l. induction n as [|n IH]; intros seed l Hlen.
  - by destruct l.
  - cbn [pick].
    assert (Hk : hd 0 seed `mod` length l < length l)
      by (apply Nat.mod_upper_bound; lia).
    apply lookup_lt_is_Some in Hk as [x Hx]. rewrite Hx.
    etrans; [|symmetry; by apply delete_Permutation]. constructor. apply IH.
    assert (is_Some (l !! (hd 0 seed `mod` length l))) as Hsome by by exists x.
    pose proof (length_delete l _ Hsome). lia.
Qed.

Lemma range_map_Permutation {V} (seed : list nat) (m : gmap string V) :
  range_map seed m ≡ₚ map_to_list m.
Proof. apply pick_Permutation, length_map_to_list. Qed.

Lemma elem_of_range_map {V} (seed : list nat) (m : gmap string V)
    (name : string) (v : V) :
  (name, v) ∈ range_map seed m <-> m !! name = Some v.
Proof. by rewrite range_map_Permutation, elem_of_map_to_list. Qed.

Lemma runList_eq (cfg : Config.t) (env : Env) (seed : list nat) (w : World)
    (entries : list DirEntry.t) :
  read_dir env (Config.BackupDir cfg) = DirEntries entries ->
  runList cfg env seed w =
  let c := scanDir cfg env (fs w) entries in
  (Ok tt, mkWorld (fs w) (ticks w)
            (trace w ++
             if (size (tarFiles c) =? 0)%nat then [Print NoBackupsFound]
             else [Print ListHeader; Print ListRule] ++
                  concat (listing cfg seed c))).
Proof.
  intros Hdir. unfold runList. rewrite Hdir. cbv zeta.
  destruct (size (tarFiles (scanDir cfg env (fs w) entries)) =? 0)%nat; [done|].
  unfold mbind, M_bind, emit_all. rewrite !emit_eq. cbn [fs ticks trace].
  by rewrite <- !app_assoc.
Qed.

Lemma entryLines_eq (cfg : Config.t) (meta : gmap string ImageInfo.t)
    (name : string) (info : FileInfo.t) :
  entryLines cfg meta (name, info) =
  attributeLines name info ++
  match meta !! name with
  | Some m => metadataLines cfg m
  | None => []
  end ++ [Print BlankLine].
Proof. done. Qed.

Lemma same_name_same_entry (entries : list DirEntry.t) (a b : DirEntry.t) :
  NoDup (DirEntry.Name <$> entries) -> a ∈ entries -> b ∈ entries ->
  DirEntry.Name a = DirEntry.Name b -> a = b.
Proof.
  induction entries as [|x l IH]; [by intros _ ?%elem_of_nil|].
  rewrite fmap_cons, NoDup_cons. intros [Hx Hl].
  intros [->|Ha]%elem_of_cons [->|Hb]%elem_of_cons Hn; [done|..].
  - destruct Hx. rewrite Hn. by apply list_elem_of_fmap_2.
  - destruct Hx. rewrite <- Hn. by apply list_elem_of_fmap_2.
  - by apply IH.
Qed.

(** C6, as the code has it: every entry of the directory that is not a
    directory, has an archive suffix and whose attributes can be read
    ([file.Info()] succeeds) gets a block in the listing.  The block has the
    attribute lines only when no entry of the directory decodes as its
    sidecar, in particular when its sidecar is there and does not decode;
    it has the image and tags lines too when one decodes. *)
Theorem catalog_lists_readable_archives (cfg : Config.t) (env : Env)
    (seed : list nat) (w : World) (entries : list DirEntry.t)
    (e : DirEntry.t) (info : FileInfo.t) :
  read_dir env (Config.BackupDir cfg) = DirEntries entries ->
  NoDup (DirEntry.Name <$> entries) ->
  e ∈ entries -> DirEntry.IsDir e = false ->
  isArchive (DirEntry.Name e) = true -> DirEntry.Info e = Some info ->
  let name := DirEntry.Name e in
  exists (w' : World) (blocks : list (list Event)),
    runList cfg env seed w = (Ok tt, w') /\
    fs w' = fs w /\
    trace w' = trace w ++ [Print ListHeader; Print ListRule] ++ concat blocks /\
    ((forall s m, s ∈ entries -> ~ decodes_for cfg env (fs w) name s m) ->
     attributeLines name info ++ [Print BlankLine] ∈ blocks) /\
    (forall s m, s ∈ entries -> decodes_for cfg env (fs w) name s m ->
     attributeLines name info ++ metadataLines cfg m ++ [Print BlankLine]
       ∈ blocks) /\
    (forall s, s ∈ entries -> DirEntry.Name s = name +:+ ".json" ->
     (forall bytes,
        open_file (fs w) (GoPath.Join [Config.BackupDir cfg; DirEntry.Name s])
          = Some bytes ->
        json_Decode env bytes = None) ->
     attributeLines name info ++ [Print BlankLine] ∈ blocks).
Proof.
  intros Hdir Hnd He Hd Ha Hi name.
  pose proof (tarFiles_lookup cfg env (fs w) entries Hnd e info He Hd Hi Ha)
    as Htar.
  set (c := scanDir cfg env (fs w) entries) in *.
  assert (Hsize : (size (tarFiles c) =? 0)%nat = false).
  { apply Nat.eqb_neq. intros H0. apply map_size_empty_inv in H0.
    rewrite H0 in Htar. by rewrite lookup_empty in Htar. }
  assert (Hblock : entryLines cfg (metaFiles c) (name, info) ∈ listing cfg seed c).
  { unfold listing. apply list_elem_of_fmap_2. by apply elem_of_range_map. }
  assert (Hplain :
            (forall s m, s ∈ entries -> ~ decodes_for cfg env (fs w) name s m) ->
            attributeLines name info ++ [Print BlankLine] ∈ listing cfg seed c).
  { intros Hno. rewrite entryLines_eq in Hblock.
    destruct (metaFiles c !! name) as [m|] eqn:Hm; [|done].
    apply metaFiles_lookup_inv in Hm as (s & Hs & Hdec).
    by destruct (Hno s m Hs). }
  exists (mkWorld (fs w) (ticks w)
            (trace w ++ [Print ListHeader; Print ListRule] ++
             concat (listing cfg seed c))), (listing cfg seed c).
  split. { rewrite (runList_eq _ _ _ _ _ Hdir). cbv zeta. fold c. by rewrite Hsize. }
  split; [done|]. split; [done|]. split; [done|]. split.
  - intros s m Hs Hdec. rewrite entryLines_eq in Hblock.
    pose proof (metaFiles_lookup cfg env (fs w) entries Hnd name s m Hs Hdec)
      as Hm.
    fold c in Hm. by rewrite Hm in Hblock.
  - intros s Hs Hname Hbad. apply Hplain. intros s' m Hs' Hdec.
    assert (s' = s) as ->.
    { apply (same_name_same_entry entries); [done..|].
      destruct Hdec as [-> _]. done. }
    destruct Hdec as (_ & _ & _ & bytes & Hopen & Hdecode).
    by rewrite (Hbad bytes Hopen) in Hdecode.
Qed.

Lemma catalog_lists_readable_archives_witness :
  let cfg := sample_config "gzip" in
  let env := sample_env "" false (DirEntries sample_dir) in
  exists (w' : World) (blocks : list (list Event)),
    runList cfg env [] (sample_world sample_files) = (Ok tt, w') /\
    trace w' = [Print ListHeader; Print ListRule] ++ concat blocks /\
    attributeLines "b.tar.gz" (FileInfo.mk 1024 sample_time) ++ [Print BlankLine]
      ∈ blocks.
Proof.
  intros cfg env.
  destruct (catalog_lists_readable_archives cfg env [] (sample_world sample_files)
              sample_dir
              (DirEntry.mk "b.tar.gz" false (Some (FileInfo.mk 1024 sample_time)))
              (FileInfo.mk 1024 sample_time))
    as (w' & blocks & Hrun & _ & Htrace & _ & _ & Hbroken);
    [reflexivity | apply (bool_decide_unpack _); by vm_compute
     | by apply (list_elem_of_lookup_2 _ 2) | reflexivity | reflexivity
     | reflexivity |].
  exists w', blocks. split; [exact Hrun|]. split; [exact Htrace|].
  apply (Hbroken (DirEntry.mk "b.tar.gz.json" false
                    (Some (FileInfo.mk 7 sample_time))));
    [by apply (list_elem_of_lookup_2 _ 3) | reflexivity |].
  intros bytes [= <-]. reflexivity.
Defined.

(** C6 as it is worded fails: an entry with an archive suffix whose
    [Info()] returns an error is passed over by the [continue] of line 381,
    and here the listing is "No backups found". *)
Lemma unreadable_archive_is_not_listed :
  ~ lists_every_archive (sample_config "gzip")
      (sample_env "" false (DirEntries [DirEntry.mk "c.tgz" false None])).
Proof.
  intros Hall.
  specialize (Hall [] (sample_world ∅) [DirEntry.mk "c.tgz" false None]
                (DirEntry.mk "c.tgz" false None) eq_refl).
  assert (DirEntry.Name (DirEntry.mk "c.tgz" false None) ∈ @nil string) as Hin.
  { apply Hall; [by left | reflexivity | reflexivity]. }
  by apply elem_of_nil in Hin.
Qed.

(** C9 as it is worded fails: the same directory listed under two orders of
    the map iteration gives two different outputs. *)
Lemma listing_order_varies :
  ~ listing_order_is_fixed (sample_config "gzip")
      (sample_env "" false (DirEntries sample_dir)).
Proof.
  intros Hfixed. specialize (Hfixed [0] [1] (sample_world sample_files)).
  vm_compute in Hfixed. discriminate Hfixed.
Qed.

(** C9, as the code has it: two listings of the same directory print the
    same blocks, one per archive, each with the same lines; only their
    order, that of the [range] over [tarFiles], can differ. *)
Theorem listing_is_a_permutation (cfg : Config.t) (env : Env)
    (seed1 seed2 : list nat) (w : World) (entries : list DirEntry.t) :
  read_dir env (Config.BackupDir cfg) = DirEntries entries ->
  let c := scanDir cfg env (fs w) entries in
  exists (heading : list Event) (blocks1 blocks2 : list (list Event)),
    runList cfg env seed1 w =
      (Ok tt, mkWorld (fs w) (ticks w) (trace w ++ heading ++ concat blocks1)) /\
    runList cfg env seed2 w =
      (Ok tt, mkWorld (fs w) (ticks w) (trace w ++ heading ++ concat blocks2)) /\
    blocks1 ≡ₚ blocks2 /\
    blocks1 ≡ₚ entryLines cfg (metaFiles c) <$> map_to_list (tarFiles c) /\
    NoDup (fst <$> map_to_list (tarFiles c)).
Proof.
  intros Hdir c.
  destruct (size (tarFiles c) =? 0)%nat eqn:Hsize.
  - exists [Print NoBackupsFound], [], [].
    rewrite !(runList_eq _ _ _ _ _ Hdir). cbv zeta. fold c. rewrite Hsize.
    split; [done|]. split; [done|]. split; [done|].
    apply Nat.eqb_eq, map_size_empty_inv in Hsize. rewrite Hsize.
    rewrite map_to_list_empty. split; [done|constructor].
  - exists [Print ListHeader; Print ListRule], (listing cfg seed1 c),
      (listing cfg seed2 c).
    rewrite !(runList_eq _ _ _ _ _ Hdir). cbv zeta. fold c. rewrite Hsize.
    split; [done|]. split; [done|]. unfold listing.
    rewrite !range_map_Permutation. split; [done|]. split; [done|].
    apply NoDup_fst_map_to_list.
Qed.

Lemma listing_is_a_permutation_witness :
  let cfg := sample_config "gzip" in
  let env := sample_env "" false (DirEntries sample_dir) in
  exists (heading : list Event) (blocks1 blocks2 : list (list Event)),
    trace (snd (runList cfg env [0] (sample_world sample_files)))
      = heading ++ concat blocks1 /\
    trace (snd (runList cfg env [1] (sample_world sample_files)))
      = heading ++ concat blocks2 /\
    blocks1 ≡ₚ blocks2.
Proof.
  intros cfg env.
  destruct (listing_is_a_permutation cfg env [0] [1] (sample_world sample_files)
              sample_dir eq_refl)
    as (heading & blocks1 & blocks2 & H1 & H2 & Hperm & _).
  exists heading, blocks1, blocks2.
  rewrite H1, H2. split; [reflexivity|]. split; [reflexivity|]. exact Hperm.
Defined.

(** * Further properties *)

(** ** Archive names *)

Lemma app_inv_head_len (a b x y : string) :
  a +:+ x = b +:+ y -> String.length a = String.length b -> a = b /\ x = y.
Proof.
  revert b. induction a as [|c a IH]; intros [|d b] E Hlen;
    try discriminate Hlen.
  - done.
  - rewrite !app_cons in E. injection E as -> E. simpl in Hlen.
    destruct (IH b E) as [-> ->]; [lia|done].
Qed.

Lemma app_inv_tail_len (a b x y : string) :
  a +:+ x = b +:+ y -> String.length x = String.length y -> a = b /\ x = y.
Proof.
  intros E Hlen. apply app_inv_head_len; [done|].
  apply (f_equal String.length) in E. rewrite !length_app_s in E. lia.
Qed.

Lemma appendInt_inj (x y : N) (w1 w2 : nat) :
  appendInt x w1 = appendInt y w2 -> x = y.
Proof.
  intros E. apply (f_equal number_of) in E.
  rewrite !number_of_appendInt in E. congruence.
Qed.

Lemma length_Format (t : Time) :
  valid t -> String.length (Format_20060102_150405 t) = 15.
Proof.
  intros (date & clock & -> & Hd & Hc & _)%Format_shape.
  rewrite !length_app_s, Hd, Hc. done.
Qed.

Lemma Format_inj (t1 t2 : Time) :
  valid t1 -> valid t2 ->
  Format_20060102_150405 t1 = Format_20060102_150405 t2 -> t1 = t2.
Proof.
  intros (Hy1 & Hm1 & Hd1 & Hh1 & Hmi1 & Hs1) (Hy2 & Hm2 & Hd2 & Hh2 & Hmi2 & Hs2).
  unfold Format_20060102_150405. intros E.
  apply app_inv_head_len in E as [Ey E];
    [|by rewrite !length_appendInt by (apply decimal_width_4; lia)].
  apply app_inv_head_len in E as [Em E];
    [|by rewrite !length_appendInt by (apply decimal_width_2; lia)].
  apply app_inv_head_len in E as [Ed E];
    [|by rewrite !length_appendInt by (apply decimal_width_2; lia)].
  rewrite !app_cons, !app_empty_l in E. injection E as E.
  apply app_inv_head_len in E as [Eh E];
    [|by rewrite !length_appendInt by (apply decimal_width_2; lia)].
  apply app_inv_head_len in E as [Emi Es];
    [|by rewrite !length_appendInt by (apply decimal_width_2; lia)].
  apply appendInt_inj in Ey, Em, Ed, Eh, Emi, Es.
  destruct t1, t2; simpl in *; congruence.
Qed.

Lemma safeImageName_idem (imageName : string) :
  safeImageName (safeImageName imageName) = safeImageName imageName.
Proof.
  rewrite !safeImageName_bytes, map_bytes_compose. apply map_bytes_ext.
  intros c. unfold sanitize_byte.
  destruct (Ascii.eqb c "/") eqn:E1; [done|].
  destruct (Ascii.eqb c ":") eqn:E2; [done|]. by rewrite E1, E2.
Qed.

(** X1: under one configuration two backups get the same archive path
    exactly when their image names sanitize to the same string and they are
    named in the same second.  An image name and its sanitized form
    therefore always collide. *)
Theorem same_archive_name (cfg : Config.t) (a b : string) (t1 t2 : Time) :
  valid t1 -> valid t2 ->
  (tarballName cfg a t1 = tarballName cfg b t2 <->
   safeImageName a = safeImageName b /\ t1 = t2) /\
  tarballName cfg (safeImageName a) t1 = tarballName cfg a t1.
Proof.
  intros V1 V2. split; [|by rewrite !tarballName_eq, safeImageName_idem].
  split; [|by intros [E ->]; rewrite !tarballName_eq, E].
  rewrite !tarballName_eq. intros E.
  apply (inj (String.app _)) in E.
  apply app_inv_tail_len in E as [Esafe E].
  - split; [done|]. rewrite !app_cons, !app_empty_l in E. injection E as E.
    apply app_inv_head_len in E as [E _]; [|by rewrite !length_Format].
    by apply Format_inj.
  - rewrite !length_app_s, !length_Format by done. done.
Qed.

Lemma same_archive_name_witness :
  tarballName (sample_config "gzip") "team/app:v2" sample_time
  = tarballName (sample_config "gzip") "team_app:v2" sample_time /\
  tarballName (sample_config "gzip") "team/app:v2" sample_time
  <> tarballName (sample_config "gzip") "team/app:v2"
       (mkTime 2023 6 15 12 5 31).
Proof.
  assert (V1 : valid sample_time) by (unfold valid; simpl; lia).
  assert (V2 : valid (mkTime 2023 6 15 12 5 31)) by (unfold valid; simpl; lia).
  destruct (same_archive_name (sample_config "gzip") "team/app:v2" "team_app:v2"
              sample_time sample_time V1 V1) as [[_ Hsame] _].
  destruct (same_archive_name (sample_config "gzip") "team/app:v2" "team/app:v2"
              sample_time (mkTime 2023 6 15 12 5 31) V1 V2) as [[Hdiff _] _].
  split.
  - apply Hsame. split; reflexivity.
  - intros E. destruct (Hdiff E) as [_ Et]. discriminate Et.
Defined.

(** X2: the path [backupImage] computes for an archive is a file directly
    under the cleaned backup directory, whatever bytes the image name holds
    (with Unix separators, as everywhere in this development).  The file
    name is the sanitized image name, a dash, the stamp and the extension;
    it holds no slash and is none of the empty name, [.] and [..], so the
    path has no element after the directory but this one.  The same holds
    for the path of the sidecar.  This is about the path as computed: the
    gzip mode hands it to a shell inside a script, and what the shell makes
    of the script is outside the model. *)
Theorem archive_path_is_under_backup_dir (cfg : Config.t) (imageName : string)
    (now : Time) :
  let leaf :=
    safeImageName imageName +:+ "-" +:+ Format_20060102_150405 now +:+ ".tar" +:+
    (if is_gzip (Config.CompressType cfg) then ".gz" else "") in
  (forall name,
     name = leaf \/ name = leaf +:+ ".json" ->
     contains_byte "/" name = false /\
     name <> "" /\ name <> "." /\ name <> "..") /\
  tarballName cfg imageName now = dir_prefix (Config.BackupDir cfg) +:+ leaf /\
  metadataPath (tarballName cfg imageName now)
    = dir_prefix (Config.BackupDir cfg) +:+ (leaf +:+ ".json") /\
  (Config.BackupDir cfg <> "" ->
   GoPath.Clean (Config.BackupDir cfg) <> "." ->
   GoPath.Clean (Config.BackupDir cfg) <> "/" ->
   tarballName cfg imageName now
   = GoPath.Clean (Config.BackupDir cfg) +:+ "/" +:+ leaf).
Proof.
  intros leaf.
  assert (H : contains_byte "/" leaf = false).
  { unfold leaf. rewrite !contains_byte_app, safeImageName_clean by auto.
    rewrite digits_Format by done. by destruct (is_gzip _). }
  assert (Hlen : 5 <= String.length leaf).
  { unfold leaf. rewrite !length_app_s. simpl. lia. }
  split; [|split; [apply tarballName_eq|split]].
  - intros name Hname.
    assert (Hn : contains_byte "/" name = false /\ 5 <= String.length name).
    { destruct Hname as [-> | ->]; [done|].
      rewrite contains_byte_app, H, length_app_s. split; [done|lia]. }
    destruct Hn as [Hslash Hn]. split; [done|].
    repeat split; intros ->; simpl in Hn; lia.
  - unfold metadataPath, leaf. by rewrite tarballName_eq, !app_assoc_s.
  - intros Hd Hdot Hroot. rewrite tarballName_eq. unfold dir_prefix, leaf.
    apply String.eqb_neq in Hd, Hdot, Hroot. rewrite Hd, Hdot, Hroot.
    by rewrite !app_assoc_s.
Qed.

Lemma archive_path_is_under_backup_dir_witness :
  tarballName (sample_config "gzip") "../../etc/passwd" sample_time
  = "docker-backups" +:+ "/" +:+ ".._.._etc_passwd-20230615-120530.tar.gz".
Proof.
  destruct (archive_path_is_under_backup_dir (sample_config "gzip")
              "../../etc/passwd" sample_time) as (_ & _ & _ & Hpath).
  apply Hpath; by vm_compute.
Defined.

(** ** What the pipelines do to the files *)

Lemma commands_app (a b : list Event) :
  commands (a ++ b) = commands a ++ commands b.
Proof. apply omap_app. Qed.

(** X3: [backupImage] itself writes at one path only, the sidecar.  When
    the inspection fails it starts no subprocess and leaves the files and
    the clock alone; otherwise it starts the save and nothing else, every
    other path is as the save left it, and after a failed save so is the
    sidecar path: no metadata is written for an archive that was not
    saved. *)
Theorem backup_footprint (cfg : Config.t) (env : Env) (imageName : string)
    (w : World) :
  exists (w' : World) (added : list Event),
    backupImage cfg env imageName w = (Ok tt, w') /\
    trace w' = trace w ++ added /\
    match ImageInspectWithRaw env imageName with
    | None => fs w' = fs w /\ ticks w' = ticks w /\ commands added = []
    | Some _ =>
        let archive := tarballName cfg imageName (clock env (ticks w)) in
        let saved := exec env (saveCommand cfg imageName archive) (fs w) in
        commands added = [saveCommand cfg imageName archive] /\
        (forall path, path <> metadataPath archive ->
                      fs w' !! path = snd saved !! path) /\
        (fst (fst saved) = false -> fs w' = snd saved)
    end.
Proof.
  destruct (ImageInspectWithRaw env imageName) as [img|] eqn:Hi.
  - cbv zeta.
    destruct (exec env
                (saveCommand cfg imageName
                   (tarballName cfg imageName (clock env (ticks w)))) (fs w))
      as [[saved out] fs1] eqn:Hx.
    cbn [fst snd]. destruct saved.
    + destruct (create_fails env fs1
                  (metadataPath (tarballName cfg imageName (clock env (ticks w)))))
        eqn:Hc.
      * eexists _, _. split; [by eapply backupImage_create_error|].
        cbn [trace fs]. split; [done|].
        split; [by rewrite commands_saveEvents|]. done.
      * destruct (write_fails env
                    (<[metadataPath
                         (tarballName cfg imageName (clock env (ticks w)))
                       := mkFile true ""]> fs1)
                    (metadataPath
                       (tarballName cfg imageName (clock env (ticks w))))
                    (json_Encode env
                       (imageInfoOf cfg imageName img (clock env (S (ticks w))))))
          eqn:Hw.
        -- eexists _, _. split; [by eapply backupImage_write_error|].
           cbn [trace fs]. split; [done|].
           split; [by rewrite commands_saveEvents|]. split; [|done].
           intros path Hp. by rewrite lookup_insert_ne.
        -- eexists _, _. split; [by eapply backupImage_success|].
           cbn [trace fs]. split; [done|].
           split; [by rewrite commands_saveEvents|]. split; [|done].
           intros path Hp. by rewrite !lookup_insert_ne.
    + eexists _, _. split; [by eapply backupImage_save_error|].
      cbn [trace fs]. split; [done|].
      split; [by rewrite commands_saveEvents|]. done.
  - eexists _, _. split; [by apply backupImage_inspect_error|].
    cbn [trace fs ticks]. split; [done|]. split; [done|]. split; [done|].
    by destruct (Config.Verbose cfg).
Qed.

Lemma plain_tar_undetected (s : string) :
  HasSuffix (s +:+ ".tar") ".tar.gz" = false /\
  HasSuffix (s +:+ ".tar") ".tgz" = false.
Proof.
  change ".tar" with (".ta" +:+ "r"). rewrite <- app_assoc_s. split.
  - destruct (HasSuffix _ ".tar.gz") eqn:E; [|done].
    change ".tar.gz" with (".tar.g" +:+ "z") in E.
    by apply suffix_last_byte in E.
  - destruct (HasSuffix _ ".tgz") eqn:E; [|done].
    change ".tgz" with (".tg" +:+ "z") in E.
    by apply suffix_last_byte in E.
Qed.

Lemma backup_failure_None (cfg : Config.t) (env : Env) (imageName : string)
    (w : World) (img : ImageInspect.t) :
  ImageInspectWithRaw env imageName = Some img ->
  backup_failure cfg env imageName w = None ->
  let archive := tarballName cfg imageName (clock env (ticks w)) in
  let saved := exec env (saveCommand cfg imageName archive) (fs w) in
  fst (fst saved) = true /\
  create_fails env (snd saved) (metadataPath archive) = false /\
  write_fails env (<[metadataPath archive := mkFile true ""]> (snd saved))
    (metadataPath archive)
    (json_Encode env (imageInfoOf cfg imageName img (clock env (S (ticks w)))))
  = false.
Proof.
  intros Hi. unfold backup_failure. rewrite Hi. cbv zeta.
  destruct (fst (fst (exec env _ (fs w)))); [|done]. cbn [negb].
  destruct (create_fails env _ _); [done|].
  by destruct (write_fails env _ _ _).
Qed.

(** X4: restore undoes what backup did, for every compression type.  After
    a backup that met no error, and provided the decoder reads back the
    compression type the encoder wrote, [restoreImage] on the archive loads
    it through [gunzip] exactly when the backup piped it through [gzip]:
    by the suffix for [gzip], by the sidecar the backup wrote for anything
    else. *)
Theorem restore_matches_backup (backup restore : Config.t) (env : Env)
    (imageName : string) (w : World) (img : ImageInspect.t) :
  let archive := tarballName backup imageName (clock env (ticks w)) in
  let info := imageInfoOf backup imageName img (clock env (S (ticks w))) in
  ImageInspectWithRaw env imageName = Some img ->
  backup_failure backup env imageName w = None ->
  (exists info',
     json_Decode env (json_Encode env info) = Some info' /\
     ImageInfo.CompressType info' = ImageInfo.CompressType info) ->
  exists (w' w'' : World) (added : list Event),
    backupImage backup env imageName w = (Ok tt, w') /\
    fs w' !! metadataPath archive = Some (mkFile true (json_Encode env info)) /\
    restoreImage restore env archive w' = (Ok tt, w'') /\
    trace w'' = trace w' ++ added /\
    commands added =
      [if is_gzip (Config.CompressType backup)
       then Command "sh" ["-c"; "gunzip -c " +:+ archive +:+ " | docker load"]
       else Command "docker" ["load"; "-i"; archive]].
Proof.
  intros archive info Hi Hok (info' & Hdec & Hct).
  destruct (backup_failure_None _ _ _ _ _ Hi Hok) as (Hs & Hc & Hw).
  fold archive in Hs, Hc, Hw.
  destruct (exec env (saveCommand backup imageName archive) (fs w))
    as [[saved out] fs1] eqn:Hx.
  cbn [fst snd] in Hs, Hc, Hw. subst saved.
  eexists _, _, _. split; [by eapply backupImage_success|].
  cbn [fs]. split; [by rewrite lookup_insert_eq|].
  split; [apply restoreImage_eq|]. cbv zeta. cbn [trace fs].
  split; [done|]. rewrite commands_restoreEvents.
  change (if is_gzip (Config.CompressType backup) then _ else _)
    with (loadCommand archive (is_gzip (Config.CompressType backup))).
  do 2 f_equal. unfold detected.
  destruct (is_gzip (Config.CompressType backup)) eqn:Hgz.
  - assert (HasSuffix archive ".tar.gz" = true) as ->; [|done].
    unfold archive. rewrite tarballName_eq, Hgz.
    replace (dir_prefix (Config.BackupDir backup) +:+ safeImageName imageName +:+
             "-" +:+ Format_20060102_150405 (clock env (ticks w)) +:+
             ".tar" +:+ ".gz")
      with ((dir_prefix (Config.BackupDir backup) +:+ safeImageName imageName +:+
             "-" +:+ Format_20060102_150405 (clock env (ticks w))) +:+ ".tar.gz")
      by by rewrite !app_assoc_s.
    apply HasSuffix_app.
  - assert (HasSuffix archive ".tar.gz" = false /\ HasSuffix archive ".tgz" = false)
      as [-> ->].
    { unfold archive. rewrite tarballName_eq, Hgz, app_empty_r.
      rewrite <- !app_assoc_s. apply plain_tar_undetected. }
    cbn [orb]. rewrite sidecar_lookup.
    change (archive +:+ ".json") with (metadataPath archive).
    rewrite lookup_insert_eq. cbn [readable data]. fold info. rewrite Hdec, Hct.
    done.
Qed.

Lemma restore_matches_backup_witness :
  let archive := "docker-backups/demo_1.0-20230615-120530.tar" in
  let env := sample_env archive false DirNotExist in
  exists (w' w'' : World),
    backupImage (sample_config "none") env "demo:1.0" (sample_world ∅)
      = (Ok tt, w') /\
    restoreImage (sample_config "gzip") env archive w' = (Ok tt, w'') /\
    commands (trace w'') =
      [Command "docker" ["save"; "-o"; archive; "demo:1.0"];
       Command "docker" ["load"; "-i"; archive]].
Proof.
  intros archive env.
  destruct (restore_matches_backup (sample_config "none") (sample_config "gzip")
              env "demo:1.0" (sample_world ∅)
              (ImageInspect.mk "sha256:0a1b" ["demo:1.0"; "demo:latest"] 7340032))
    as (w' & w'' & added & Hb & _ & Hr & Htrace & Hcmd);
    [reflexivity | reflexivity | by eexists |].
  exists w', w''. split; [exact Hb|]. split; [exact Hr|].
  rewrite Htrace, commands_app, Hcmd.
  assert (Hw' : w' = snd (backupImage (sample_config "none") env "demo:1.0"
                             (sample_world ∅))) by by rewrite Hb.
  rewrite Hw'. reflexivity.
Defined.

(** X5: to decide how to load an archive [restoreImage] looks at its path
    and at the one file [path.json], never at the archive or at anything
    else: two file systems that agree on the sidecar give the same
    subprocess.  The files change only through that subprocess. *)
Theorem restore_reads_only_sidecar (cfg : Config.t) (env : Env)
    (path : string) (w1 w2 : World) :
  fs w1 !! (path +:+ ".json") = fs w2 !! (path +:+ ".json") ->
  exists (c : bool) (w1' w2' : World),
    restoreImage cfg env path w1 = (Ok tt, w1') /\
    restoreImage cfg env path w2 = (Ok tt, w2') /\
    commands (trace w1') = commands (trace w1) ++ [loadCommand path c] /\
    commands (trace w2') = commands (trace w2) ++ [loadCommand path c] /\
    fs w1' = snd (exec env (loadCommand path c) (fs w1)) /\
    fs w2' = snd (exec env (loadCommand path c) (fs w2)).
Proof.
  intros Hside.
  assert (Hc : detected env (fs w2) path = detected env (fs w1) path).
  { unfold detected. by rewrite !sidecar_lookup, Hside. }
  exists (detected env (fs w1) path). eexists _, _.
  split; [apply restoreImage_eq|]. split; [apply restoreImage_eq|].
  cbv zeta. cbn [trace fs]. rewrite Hc.
  by rewrite !commands_app, !commands_restoreEvents.
Qed.

Lemma restore_reads_only_sidecar_witness :
  exists (c : bool) (w1' w2' : World),
    restoreImage (sample_config "gzip") (sample_env "" false DirNotExist)
      "img.tar"
      (sample_world {[ "img.tar.json" := mkFile true "sidecar:gzip" ]})
    = (Ok tt, w1') /\
    restoreImage (sample_config "gzip") (sample_env "" false DirNotExist)
      "img.tar"
      (sample_world {[ "img.tar.json" := mkFile true "sidecar:gzip";
                       "img.tar" := mkFile true "not gzip at all" ]})
    = (Ok tt, w2') /\
    commands (trace w1') = [loadCommand "img.tar" c] /\
    commands (trace w2') = [loadCommand "img.tar" c].
Proof.
  destruct (restore_reads_only_sidecar (sample_config "gzip")
              (sample_env "" false DirNotExist) "img.tar"
              (sample_world {[ "img.tar.json" := mkFile true "sidecar:gzip" ]})
              (sample_world {[ "img.tar.json" := mkFile true "sidecar:gzip";
                               "img.tar" := mkFile true "not gzip at all" ]}))
    as (c & w1' & w2' & H1 & H2 & C1 & C2 & _); [by vm_compute|].
  exists c, w1', w2'. split; [exact H1|]. split; [exact H2|].
  split; [exact C1 | exact C2].
Defined.

(** ** Where the work items come from *)

(** X6: the work items [runBackup] and [runRestore] resolve.  With
    [--stdin] they are read from standard input, whatever [--file] and the
    arguments say; otherwise with a non-empty [--file] from that file,
    whatever the arguments say; they are then the trimmed lines that are
    not empty, in order, so no such item is the empty string.  With neither
    flag they are the arguments as given.  Resolving changes nothing. *)
Theorem resolved_items (env : Env) (flags : Flags) (args names : list string)
    (w w' : World) :
  resolveInput env flags args w = (Ok names, w') ->
  w' = w /\
  (stdin flags = false -> file flags = "" -> names = args) /\
  (stdin flags = true \/ file flags <> "" ->
   Forall (fun name => name <> "") names /\
   exists input,
     (if stdin flags then input = stdin_data env
      else open_file (fs w) (file flags) = Some input) /\
     snd (bufio_Scan env input) = false /\
     names = filter (fun name : string => name <> "")
               (strings_TrimSpace env <$> fst (bufio_Scan env input))).
Proof.
  intros Hr. split; [by eapply resolveInput_reads|].
  revert Hr. unfold resolveInput, scanNames, log_Fatal, os_Open.
  unfold mbind, M_bind, mret, M_ret. cbn [fst snd].
  assert (Hne : forall l : list string,
            Forall (fun name => name <> "") (filter (fun name : string => name <> "") l)).
  { intros l. apply Forall_forall. by intros x [? _]%list_elem_of_filter. }
  destruct (stdin flags).
  - destruct (snd (bufio_Scan env (stdin_data env))) eqn:Herr; [done|].
    intros [= <- _]. split; [done|]. intros _. split; [apply Hne|].
    by exists (stdin_data env).
  - destruct (String.eqb_spec (file flags) "") as [E|E]; cbn [negb].
    + intros [= <- _]. split; [done|]. by intros [|].
    + destruct (open_file (fs w) (file flags)) as [bytes|] eqn:Ho; [|done].
      destruct (snd (bufio_Scan env bytes)) eqn:Herr; [done|].
      intros [= <- _]. split; [done|]. intros _. split; [apply Hne|].
      by exists bytes.
Qed.

Lemma resolved_items_witness :
  let env := sample_env "" false DirNotExist in
  let w := sample_world {[ "images.txt" := mkFile true "demo:1.0" ]} in
  resolveInput env (mkFlags "images.txt" false) ["ignored:1"] w
    = (Ok ["demo:1.0"], w) /\
  Forall (fun name : string => name <> "") ["demo:1.0"].
Proof.
  intros env w.
  destruct (resolved_items env (mkFlags "images.txt" false) ["ignored:1"]
              ["demo:1.0"] w w eq_refl) as (_ & _ & Hscan).
  split; [reflexivity|]. apply Hscan. right. discriminate.
Defined.

Lemma runBackup_start_iff (cfg : Config.t) (env : Env) (flags : Flags)
    (args : list string) (w : World) (s : Orchestrator.State) :
  runBackup_start cfg env flags args w = Some s <->
  exists names,
    resolveInput env flags args w = (Ok names, w) /\ names <> [] /\
    mkdir_fails env (fs w) (Config.BackupDir cfg) = false /\
    new_client_fails env = false /\
    s = Orchestrator.init names
          (mkWorld (fs w) (ticks w)
             (trace w ++ [MkdirAll (Config.BackupDir cfg)])).
Proof.
  unfold runBackup_start, runBackup_setup.
  unfold mbind, M_bind, mret, M_ret, log_Fatal, os_MkdirAll.
  destruct (resolveInput env flags args w) as [[names|code] w1] eqn:Hr.
  - pose proof (resolveInput_reads _ _ _ _ _ _ Hr) as ->.
    destruct names as [|n names]; cbn [length Nat.eqb].
    + split; [done|]. by intros (names & [= <-] & ? & _).
    + destruct (mkdir_fails env (fs w) (Config.BackupDir cfg)) eqn:Hm;
        cbn [negb fs ticks trace].
      { split; [done|]. by intros (? & _ & _ & ? & _). }
      destruct (new_client_fails env) eqn:Hc.
      { split; [done|]. by intros (? & _ & _ & _ & ? & _). }
      split.
      * intros [= <-]. by exists (n :: names).
      * by intros (? & [= <-] & _ & _ & _ & ->).
  - split; [done|]. by intros (names & [=] & _).
Qed.

Lemma runRestore_start_iff (env : Env) (flags : Flags) (args : list string)
    (w : World) (s : Orchestrator.State) :
  runRestore_start env flags args w = Some s <->
  exists names,
    resolveInput env flags args w = (Ok names, w) /\ names <> [] /\
    s = Orchestrator.init names w.
Proof.
  unfold runRestore_start, runRestore_setup.
  unfold mbind, M_bind, mret, M_ret, log_Fatal.
  destruct (resolveInput env flags args w) as [[names|code] w1] eqn:Hr.
  - pose proof (resolveInput_reads _ _ _ _ _ _ Hr) as ->.
    destruct names as [|n names]; cbn [length Nat.eqb].
    + split; [done|]. by intros (names & [= <-] & ? & _).
    + split.
      * intros [= <-]. by exists (n :: names).
      * by intros (? & [= <-] & _ & ->).
  - split; [done|]. by intros (names & [=] & _).
Qed.



Lemma backup_footprint_witness :
  let archive := "docker-backups/ghost_0-20230615-120530.tar.gz" in
  let env := sample_env archive false DirNotExist in
  let before : gmap string File := {[ "keep.txt" := mkFile true "mine" ]} in
  exists w' : World,
    backupImage (sample_config "gzip") env "ghost:0" (sample_world before)
      = (Ok tt, w') /\
    fs w' = before /\ commands (trace w') = [].
Proof.
  intros archive env before.
  destruct (backup_footprint (sample_config "gzip") env "ghost:0"
              (sample_world before))
    as (w' & added & Hrun & Htrace & Hfoot).
  change (ImageInspectWithRaw env "ghost:0") with (@None ImageInspect.t) in Hfoot.
  destruct Hfoot as (Hfs & _ & Hcmd).
  exists w'. split; [exact Hrun|]. split; [exact Hfs|].
  rewrite Htrace. exact Hcmd.
Defined.

(** ** More on the catalog *)

Lemma tar_of_readable (e : DirEntry.t) :
  readable_archive e = true <-> is_Some (tar_of e).
Proof.
  unfold readable_archive, tar_of. destruct (DirEntry.IsDir e).
  { split; [done|]. by intros [? ?]. }
  destruct (DirEntry.Info e) as [info|].
  - rewrite bool_decide_eq_true_2 by done. cbn [negb andb].
    destruct (isArchive (DirEntry.Name e)); split; try done;
      by intros [? ?].
  - rewrite bool_decide_eq_false_2 by by intros [? ?].
    split; [done|]. by intros [? ?].
Qed.

Lemma omap_tar_of_names (entries : list DirEntry.t) :
  fst <$> omap tar_of entries
  = DirEntry.Name <$> filter (fun e => readable_archive e = true) entries.
Proof.
  induction entries as [|e l IH]; [done|]. cbn [omap list_omap].
  destruct (decide (readable_archive e = true)) as [Hr|Hr].
  - rewrite filter_cons_True by done.
    apply tar_of_readable in Hr as [[n i] Hni]. rewrite Hni.
    apply tar_of_Some in Hni as [<- _]. rewrite !fmap_cons. cbn [fst].
    by rewrite <- IH.
  - rewrite filter_cons_False by done.
    destruct (tar_of e) as [kv|] eqn:Ht; [|done].
    destruct Hr. apply tar_of_readable. by rewrite Ht.
Qed.

Lemma speaks_entryLines (cfg : Config.t) (meta : gmap string ImageInfo.t)
    (entry : string * FileInfo.t) :
  Forall speaks (entryLines cfg meta entry).
Proof.
  unfold entryLines. destruct (meta !! entry.1), (Config.Verbose cfg);
    repeat constructor.
Qed.

Lemma listed_entryLines (cfg : Config.t) (meta : gmap string ImageInfo.t)
    (entry : string * FileInfo.t) :
  listed (entryLines cfg meta entry) = [fst entry].
Proof.
  unfold entryLines. by destruct (meta !! entry.1), (Config.Verbose cfg).
Qed.

Lemma listed_app (a b : list Event) : listed (a ++ b) = listed a ++ listed b.
Proof. apply omap_app. Qed.

Lemma listed_listing (cfg : Config.t) (meta : gmap string ImageInfo.t)
    (l : list (string * FileInfo.t)) :
  listed (concat (entryLines cfg meta <$> l)) = fst <$> l.
Proof.
  induction l as [|x l IH]; [done|].
  rewrite fmap_cons. cbn [concat].
  by rewrite listed_app, IH, listed_entryLines.
Qed.

Lemma tarFiles_empty (cfg : Config.t) (env : Env) (files : gmap string File)
    (entries : list DirEntry.t) :
  size (tarFiles (scanDir cfg env files entries)) = 0 <->
  forall e, e ∈ entries -> readable_archive e = false.
Proof.
  rewrite map_size_empty_iff, scanDir_tarFiles. split.
  - intros Hempty e He. apply not_true_is_false.
    intros [[n i] Hni]%tar_of_readable.
    assert (Hin : (n, i) ∈ reverse (omap tar_of entries)).
    { apply elem_of_reverse, list_elem_of_omap. by exists e. }
    pose proof (not_elem_of_list_to_map_2
                  (M:=gmap string) (reverse (omap tar_of entries)) n) as Hno.
    rewrite Hempty, lookup_empty in Hno. apply (Hno eq_refl).
    apply list_elem_of_fmap. by exists (n, i).
  - intros Hnone. assert (omap tar_of entries = []) as ->; [|done].
    induction entries as [|e l IH]; [done|]. cbn [omap list_omap].
    destruct (tar_of e) as [kv|] eqn:Ht.
    + assert (readable_archive e = true) as Hr
        by (apply tar_of_readable; by rewrite Ht).
      rewrite (Hnone e) in Hr; [done|by left].
    + apply IH. intros x Hx. apply Hnone. by right.
Qed.

(** X8: [runList] is read-only.  Whatever the directory holds it leaves
    the files and the clock as they are, makes no directory and starts no
    subprocess: it only prints.  It exits exactly when the directory cannot
    be read; a directory that does not exist is reported on the console and
    is not an error. *)
Theorem runList_is_read_only (cfg : Config.t) (env : Env) (seed : list nat)
    (w : World) :
  exists (r : Result unit) (w' : World) (added : list Event),
    runList cfg env seed w = (r, w') /\
    fs w' = fs w /\ ticks w' = ticks w /\
    trace w' = trace w ++ added /\ Forall speaks added /\
    (r = Exit 1 <-> read_dir env (Config.BackupDir cfg) = DirReadError) /\
    (r = Ok tt <-> read_dir env (Config.BackupDir cfg) <> DirReadError) /\
    (read_dir env (Config.BackupDir cfg) = DirNotExist ->
     added = [Print (DirectoryMissing (Config.BackupDir cfg))]).
Proof.
  destruct (read_dir env (Config.BackupDir cfg)) as [| |entries] eqn:Hdir.
  - eexists _, _, _. unfold runList. rewrite Hdir, emit_eq.
    split; [done|]. cbn [fs ticks trace]. repeat split; try done.
    by repeat constructor.
  - eexists _, _, _. unfold runList. rewrite Hdir. unfold log_Fatal.
    split; [done|]. cbn [fs ticks trace]. repeat split; try done.
    by repeat constructor.
  - eexists _, _, _. rewrite (runList_eq _ _ _ _ _ Hdir). cbv zeta.
    split; [done|]. cbn [fs ticks trace]. repeat split; try done.
    destruct (size _ =? 0)%nat; [by repeat constructor|].
    apply Forall_app. split; [by repeat constructor|].
    apply Forall_concat, Forall_fmap, Forall_forall. intros x _.
    apply speaks_entryLines.
Qed.

Lemma runList_is_read_only_witness :
  exists w' : World,
    runList (sample_config "gzip") (sample_env "" false DirNotExist) []
      (sample_world sample_files) = (Ok tt, w') /\
    fs w' = sample_files /\
    trace w' = [Print (DirectoryMissing "docker-backups")].
Proof.
  destruct (runList_is_read_only (sample_config "gzip")
              (sample_env "" false DirNotExist) [] (sample_world sample_files))
    as (r & w' & added & Hrun & Hfs & _ & Htrace & _ & _ & Hok & Hmissing).
  exists w'. assert (r = Ok tt) as -> by (apply Hok; discriminate).
  split; [exact Hrun|]. split; [exact Hfs|].
  rewrite Htrace, (Hmissing eq_refl). reflexivity.
Defined.

(** X9: [runList] answers "No backups found" exactly when the directory
    holds no entry it takes for an archive, that is when every entry is a
    directory, or has attributes that cannot be read, or lacks the three
    suffixes; sidecars and other files do not count. *)
Theorem no_backups_found (cfg : Config.t) (env : Env) (seed : list nat)
    (w : World) (entries : list DirEntry.t) :
  read_dir env (Config.BackupDir cfg) = DirEntries entries ->
  trace (snd (runList cfg env seed w)) = trace w ++ [Print NoBackupsFound] <->
  forall e, e ∈ entries -> readable_archive e = false.
Proof.
  intros Hdir. rewrite (runList_eq _ _ _ _ _ Hdir). cbv zeta. cbn [snd trace].
  rewrite <- tarFiles_empty.
  destruct (size _ =? 0)%nat eqn:Hsize.
  - apply Nat.eqb_eq in Hsize. done.
  - apply Nat.eqb_neq in Hsize. split; [|done].
    by intros [=]%app_inv_head.
Qed.

Lemma no_backups_found_witness :
  let env := sample_env "" false
               (DirEntries [DirEntry.mk "notes.json" false
                              (Some (FileInfo.mk 3 sample_time));
                            DirEntry.mk "old.tar" true
                              (Some (FileInfo.mk 4096 sample_time))]) in
  trace (snd (runList (sample_config "gzip") env [] (sample_world ∅)))
  = [Print NoBackupsFound].
Proof.
  intros env.
  apply (no_backups_found (sample_config "gzip") env [] (sample_world ∅)
           [DirEntry.mk "notes.json" false (Some (FileInfo.mk 3 sample_time));
            DirEntry.mk "old.tar" true (Some (FileInfo.mk 4096 sample_time))]
           eq_refl).
  intros e [->|[->|[]%elem_of_nil]%elem_of_cons]%elem_of_cons; reflexivity.
Defined.

(** X10: the listing shows nothing that is not there.  Every block it
    prints is the block of an entry of the directory that is not a
    directory, has an archive suffix and readable attributes, and shows
    those attributes; and if the block has image and tags lines, they come
    from an entry named after that archive with [.json] appended, which was
    opened and decoded.  A sidecar without its archive is never shown. *)
Theorem listing_is_sound (cfg : Config.t) (env : Env) (seed : list nat)
    (w : World) (entries : list DirEntry.t) :
  read_dir env (Config.BackupDir cfg) = DirEntries entries ->
  exists (heading : list Event) (blocks : list (list Event)),
    trace (snd (runList cfg env seed w)) = trace w ++ heading ++ concat blocks /\
    listed heading = [] /\
    forall block, block ∈ blocks ->
      exists (e : DirEntry.t) (info : FileInfo.t),
        e ∈ entries /\ readable_archive e = true /\
        DirEntry.Info e = Some info /\
        (block = attributeLines (DirEntry.Name e) info ++ [Print BlankLine] \/
         exists (s : DirEntry.t) (m : ImageInfo.t),
           s ∈ entries /\
           decodes_for cfg env (fs w) (DirEntry.Name e) s m /\
           block = attributeLines (DirEntry.Name e) info ++
                   metadataLines cfg m ++ [Print BlankLine]).
Proof.
  intros Hdir. rewrite (runList_eq _ _ _ _ _ Hdir). cbv zeta. cbn [snd trace].
  set (c := scanDir cfg env (fs w) entries).
  destruct (size (tarFiles c) =? 0)%nat.
  { exists [Print NoBackupsFound], []. split; [done|]. split; [done|].
    by intros block ?%elem_of_nil. }
  exists [Print ListHeader; Print ListRule], (listing cfg seed c).
  split; [done|]. split; [done|].
  intros block ([name info] & -> & Hin)%list_elem_of_fmap.
  apply elem_of_range_map in Hin. unfold c in Hin.
  rewrite scanDir_tarFiles in Hin. apply elem_of_list_to_map_2 in Hin.
  apply elem_of_reverse, list_elem_of_omap in Hin as (e & He & Ht).
  exists e, info. split; [done|].
  split; [apply tar_of_readable; by rewrite Ht|].
  apply tar_of_Some in Ht as (<- & _ & Hinfo & _). split; [done|].
  rewrite entryLines_eq.
  destruct (metaFiles c !! DirEntry.Name e) as [m|] eqn:Hm; [|by left].
  right. apply metaFiles_lookup_inv in Hm as (s & Hs & Hdec).
  by exists s, m.
Qed.

Lemma listing_is_sound_witness :
  let env := sample_env "" false (DirEntries sample_dir) in
  exists blocks : list (list Event),
    trace (snd (runList (sample_config "gzip") env [] (sample_world sample_files)))
    = [Print ListHeader; Print ListRule] ++ concat blocks /\
    length blocks = 2.
Proof.
  intros env.
  destruct (listing_is_sound (sample_config "gzip") env []
              (sample_world sample_files) sample_dir eq_refl)
    as (heading & blocks & Htrace & _ & _).
  exists [attributeLines "a.tar" (FileInfo.mk 2048 sample_time) ++
          metadataLines (sample_config "gzip") (sample_info "none") ++
          [Print BlankLine];
          attributeLines "b.tar.gz" (FileInfo.mk 1024 sample_time) ++
          [Print BlankLine]].
  split; [by vm_compute|reflexivity].
Defined.

(** X11: each archive is listed once.  When the entries of the directory
    have distinct names, the backup names the listing prints are, up to
    their order, exactly the names of the entries it takes for archives:
    none is missing, none is repeated, nothing else is named. *)
Theorem each_archive_listed_once (cfg : Config.t) (env : Env)
    (seed : list nat) (w : World) (entries : list DirEntry.t) :
  read_dir env (Config.BackupDir cfg) = DirEntries entries ->
  NoDup (DirEntry.Name <$> entries) ->
  exists added : list Event,
    trace (snd (runList cfg env seed w)) = trace w ++ added /\
    listed added ≡ₚ
      DirEntry.Name <$> filter (fun e => readable_archive e = true) entries /\
    NoDup (listed added).
Proof.
  intros Hdir Hnd. rewrite (runList_eq _ _ _ _ _ Hdir). cbv zeta. cbn [snd trace].
  set (c := scanDir cfg env (fs w) entries).
  eexists. split; [done|].
  assert (Hnames : NoDup (fst <$> omap tar_of entries)).
  { apply (NoDup_omap_fst _ DirEntry.Name); [|done].
    intros a b k v v' [<- _]%tar_of_Some [<- _]%tar_of_Some. done. }
  assert (Hl : listed
                 (if (size (tarFiles c) =? 0)%nat then [Print NoBackupsFound]
                  else [Print ListHeader; Print ListRule] ++
                       concat (listing cfg seed c))
               = fst <$> range_map seed (tarFiles c)).
  { destruct (size (tarFiles c) =? 0)%nat eqn:Hsize.
    - apply Nat.eqb_eq in Hsize. unfold range_map. by rewrite Hsize.
    - unfold listing. by rewrite listed_app, listed_listing. }
  rewrite Hl, range_map_Permutation. unfold c. rewrite scanDir_tarFiles.
  rewrite map_to_list_to_map
    by (by rewrite fmap_reverse, reverse_Permutation).
  rewrite fmap_reverse, reverse_Permutation, <- omap_tar_of_names.
  done.
Qed.

Lemma each_archive_listed_once_witness :
  let env := sample_env "" false (DirEntries sample_dir) in
  exists added : list Event,
    trace (snd (runList (sample_config "gzip") env [1]
                  (sample_world sample_files))) = added /\
    listed added ≡ₚ ["a.tar"; "b.tar.gz"].
Proof.
  intros env.
  destruct (each_archive_listed_once (sample_config "gzip") env [1]
              (sample_world sample_files) sample_dir eq_refl)
    as (added & Htrace & Hperm & _);
    [apply (bool_decide_unpack _); by vm_compute|].
  exists added. split; [exact Htrace | exact Hperm].
Defined.

(** ** More on the fan-out loop *)
Module OrchestratorMore.
Import Orchestrator OrchestratorFacts.

Section More.
Context {Item W : Type}.
Variables (task : Item -> W -> W) (notice : W -> W).
Variables (items : list Item) (limit : Z).

Local Abbreviation step := (Orchestrator.step task notice limit).
Local Abbreviation invariant := (Orchestrator.invariant task notice items limit).

Lemma count_in_task (ws : list (Item * Goroutine)) :
  count in_task ws + count has_returned ws = count was_invoked ws.
Proof.
  induction ws as [|[item g] ws IH]; [done|]. simpl. destruct g; simpl; lia.
Qed.

Lemma count_all (p : Goroutine -> bool) (ws : list (Item * Goroutine)) :
  (forall j x, ws !! j = Some x -> p (snd x) = true) -> count p ws = length ws.
Proof.
  induction ws as [|x ws IH]; [done|]. intros Hall. simpl.
  rewrite (Hall 0 x eq_refl), IH; [done|].
  intros j y Hy. by apply (Hall (S j)).
Qed.

Lemma count_all_but_last (p : Goroutine -> bool) (ws : list (Item * Goroutine))
    (k : nat) (y : Item * Goroutine) :
  ws !! k = Some y -> p (snd y) = false ->
  (forall j x, ws !! j = Some x -> S j < length ws -> p (snd x) = true) ->
  S k = length ws /\ count p ws = k.
Proof.
  intros Hk Hy Hall.
  assert (Hlt : k < length ws) by by eapply lookup_lt_Some.
  assert (Hlast : S k = length ws).
  { destruct (decide (S k < length ws)) as [Hs|Hs]; [|lia].
    rewrite (Hall k y Hk Hs) in Hy. done. }
  split; [done|].
  destruct ws as [|z ws' _] using rev_ind; [done|].
  rewrite length_app in Hlast, Hall. simpl in Hlast, Hall.
  assert (k = length ws') as -> by lia.
  rewrite lookup_app_r, Nat.sub_diag in Hk by lia. injection Hk as ->.
  rewrite count_app. simpl. rewrite Hy, count_all; [lia|].
  intros j x Hx. apply (Hall j x).
  - by apply lookup_app_l_Some.
  - apply lookup_lt_Some in Hx. lia.
Qed.

(** The two histories are as long as the goroutines they count. *)
Lemma tally_reachable (w0 : W) (s : State) :
  rtc step (init items w0) s ->
  length (invoked s) = count was_invoked (workers s) /\
  length (completed s) = count has_returned (workers s).
Proof.
  intros Hs.
  apply (rtc_ind_r (R:=step)
           (fun s => length (invoked s) = count was_invoked (workers s) /\
                     length (completed s) = count has_returned (workers s))
           (init items w0)); [done| |done].
  intros y z _ Hyz [Hi Hc].
  destruct Hyz; cbn [invoked completed workers] in *; try done.
  - rewrite !count_app. simpl. lia.
  - pose proof (count_insert was_invoked _ _ _ _ InTask H).
    pose proof (count_insert has_returned _ _ _ _ InTask H).
    rewrite length_app. simpl in *. lia.
  - pose proof (count_insert was_invoked _ _ _ _ TaskReturned H).
    pose proof (count_insert has_returned _ _ _ _ TaskReturned H).
    rewrite length_app. simpl in *. lia.
  - pose proof (count_insert was_invoked _ _ _ _ SlotReleased H).
    pose proof (count_insert has_returned _ _ _ _ SlotReleased H).
    simpl in *. lia.
  - pose proof (count_insert was_invoked _ _ _ _ Finished H).
    pose proof (count_insert has_returned _ _ _ _ Finished H).
    simpl in *. lia.
Qed.

(** X12: once the main goroutine is past [wg.Wait()] nothing is left
    running: the channel holds no token, the wait group is at zero, no
    call is in flight and no goroutine can take another step. *)
Theorem quiet_at_end (w0 : W) (s : State) :
  (0 <= limit)%Z -> rtc step (init items w0) s -> main s = AtEnd ->
  slots s = 0 /\ waiting s = 0%Z /\ in_flight s = 0 /\
  forall s', ~ step s s'.
Proof.
  intros Hl Hs E.
  pose proof (invariant_reachable task notice items limit w0 s Hl Hs) as Hinv.
  pose proof (inv_end _ _ _ _ _ _ Hinv E) as Hpend.
  pose proof (inv_slots _ _ _ _ _ _ Hinv) as Hslots.
  pose proof (inv_waiting _ _ _ _ _ _ Hinv) as Hwait.
  rewrite E in Hslots, Hwait. simpl in Hslots, Hwait.
  assert (Hh : count holds_slot (workers s) <= count pending (workers s))
    by (apply count_le; by intros []).
  assert (Hf : count in_task (workers s) <= count pending (workers s))
    by (apply count_le; by intros []).
  split; [lia|]. split; [lia|]. split; [unfold in_flight; lia|].
  intros s' Hstep. destruct Hstep; cbn [main workers] in *; try done;
    by apply (count_zero _ _ _ _ Hpend) in H.
Qed.

(** X13: the deferred calls of a goroutine never block and never panic.
    In every reachable state the wait-group counter is not negative; a
    goroutine whose task has returned finds a token to receive, so it can
    take its next step at once; and one about to call [wg.Done()] finds the
    counter at one or more. *)
Theorem deferred_calls_go_through (w0 : W) (s : State) (k : nat) (item : Item) :
  (0 <= limit)%Z -> rtc step (init items w0) s ->
  (0 <= waiting s)%Z /\
  (workers s !! k = Some (item, TaskReturned) ->
   1 <= slots s /\ exists s', step s s') /\
  (workers s !! k = Some (item, SlotReleased) ->
   (1 <= waiting s)%Z /\ exists s', step s s').
Proof.
  intros Hl Hs.
  pose proof (invariant_reachable task notice items limit w0 s Hl Hs) as Hinv.
  pose proof (inv_slots _ _ _ _ _ _ Hinv) as Hslots.
  pose proof (inv_waiting _ _ _ _ _ _ Hinv) as Hwait.
  assert (Hmw : (0 <= main_wait (main s))%Z) by (destruct (main s); simpl; lia).
  split; [lia|]. split.
  - intros Hk.
    assert (0 < count holds_slot (workers s)) by by eapply count_lookup.
    split; [lia|]. destruct s as [pc ws sl wg inv cp w]. simpl in *.
    destruct sl as [|sl]; [lia|]. eexists. by eapply step_release.
  - intros Hk.
    assert (0 < count pending (workers s)) by by eapply count_lookup.
    split; [lia|]. destruct s as [pc ws sl wg inv cp w]. simpl in *.
    eexists. by eapply step_done.
Qed.

(** X14: the calls in flight are the calls that started and have not
    returned.  In every reachable state their number is the number of
    started calls minus the number of returned ones, and every returned
    call is among the started ones. *)
Theorem calls_in_flight (w0 : W) (s : State) :
  (0 <= limit)%Z -> rtc step (init items w0) s ->
  in_flight s + length (completed s) = length (invoked s) /\
  forall k, k ∈ completed s -> k ∈ invoked s.
Proof.
  intros Hl Hs.
  pose proof (invariant_reachable task notice items limit w0 s Hl Hs) as Hinv.
  destruct (tally_reachable w0 s Hs) as [-> ->].
  split; [apply count_in_task|].
  intros k Hk. apply (inv_invoked _ _ _ _ _ _ Hinv).
  apply (inv_completed _ _ _ _ _ _ Hinv) in Hk as (g & Hg & Hr).
  exists g. split; [done|]. by destruct (snd g).
Qed.

(** X16: goroutines are started in the order of the list, each for its own
    item.  In every reachable state the goroutines started so far are those
    of a prefix of the item list, the rest being what the [range] has still
    to visit, and the goroutine at position [k] was given the item at
    position [k]. *)
Theorem started_in_order (w0 : W) (s : State) :
  (0 <= limit)%Z -> rtc step (init items w0) s ->
  items = (fst <$> workers s) ++ todo (main s) /\
  forall k item g, workers s !! k = Some (item, g) -> items !! k = Some item.
Proof.
  intros Hl Hs.
  pose proof (invariant_reachable task notice items limit w0 s Hl Hs) as Hinv.
  pose proof (inv_items _ _ _ _ _ _ Hinv) as Hitems.
  split; [done|]. intros k item g Hk. by eapply worker_item.
Qed.

End More.

Section Sequential.
Context {Item W : Type}.
Variables (task : Item -> W -> W) (notice : W -> W).
Variables (items : list Item).

Local Abbreviation step := (Orchestrator.step task notice 1).
Local Abbreviation invariant := (Orchestrator.invariant task notice items 1).

Lemma seq_snoc (n : nat) : seq 0 n ++ [n] = seq 0 (S n).
Proof. by rewrite seq_S. Qed.

Lemma effects_in_order (w0 : W) (n : nat) :
  n <= length items ->
  effects task items w0 (seq 0 n)
  = foldl (fun w item => task item w) w0 (take n items).
Proof.
  induction n as [|n IH]; intros Hn; [done|].
  assert (is_Some (items !! n)) as [item Hitem] by (apply lookup_lt_is_Some; lia).
  rewrite <- seq_snoc, (effects_snoc _ _ _ _ _ item Hitem), IH by lia.
  by rewrite (take_S_r _ _ item Hitem), foldl_app.
Qed.

(** With one slot, both histories are initial segments of the indices, and
    every goroutine but the newest has returned from its task. *)
Lemma in_order_reachable (w0 : W) (s : State) :
  rtc step (init items w0) s ->
  invoked s = seq 0 (length (invoked s)) /\
  completed s = seq 0 (length (completed s)) /\
  forall j x, workers s !! j = Some x -> S j < length (workers s) ->
              has_returned (snd x) = true.
Proof.
  intros Hs.
  apply (rtc_ind_r (R:=step)
           (fun s => rtc step (init items w0) s /\
                     invoked s = seq 0 (length (invoked s)) /\
                     completed s = seq 0 (length (completed s)) /\
                     forall j x, workers s !! j = Some x ->
                                 S j < length (workers s) ->
                                 has_returned (snd x) = true)
           (init items w0)) in Hs as (_ & ? & ? & ?); [done|..].
  - split; [done|]. split; [done|]. split; [done|]. by intros j x.
  - intros y z _ Hyz (Hy & Hi & Hc & Hall).
    split; [by eapply rtc_r|].
    pose proof (invariant_reachable task notice items 1 w0 y ltac:(lia) Hy)
      as Hinv.
    destruct (tally_reachable task notice items 1 w0 y Hy) as [Ti Tc].
    pose proof (inv_slots _ _ _ _ _ _ Hinv) as Hslots.
    pose proof (inv_limit _ _ _ _ _ _ Hinv) as Hlimit.
    destruct Hyz; cbn [main workers slots invoked completed] in *.
    + done.
    + done.
    + split; [done|]. split; [done|]. intros j x Hx Hj.
      rewrite length_app in Hj. simpl in Hj.
      rewrite lookup_app_l in Hx by lia.
      assert (count holds_slot ws = 0) as H0 by (simpl in Hslots; lia).
      apply (count_zero _ _ _ _ H0) in Hx. by destruct (snd x).
    + done.
    + destruct (count_all_but_last was_invoked ws k (item, Spawned) H eq_refl)
        as [Hlast Hcount].
      { intros j x Hx Hj. specialize (Hall j x Hx Hj). by destruct (snd x). }
      split; [|split; [done|]].
      * rewrite length_app. simpl. rewrite Nat.add_1_r, <- seq_snoc.
        rewrite <- Hi. do 2 f_equal. lia.
      * intros j x Hx Hj. rewrite length_insert in Hj.
        destruct (decide (j = k)) as [->|Hne]; [lia|].
        rewrite list_lookup_insert_ne in Hx by done. by apply (Hall j).
    + destruct (count_all_but_last has_returned ws k (item, InTask) H eq_refl)
        as [Hlast Hcount]; [done|].
      split; [done|]. split.
      * rewrite length_app. simpl. rewrite Nat.add_1_r, <- seq_snoc.
        rewrite <- Hc. do 2 f_equal. lia.
      * intros j x Hx Hj. rewrite length_insert in Hj.
        destruct (decide (j = k)) as [->|Hne].
        -- rewrite list_lookup_insert_eq in Hx by by eapply lookup_lt_Some.
           by injection Hx as <-.
        -- rewrite list_lookup_insert_ne in Hx by done. by apply (Hall j).
    + split; [done|]. split; [done|].
      intros j x Hx Hj. rewrite length_insert in Hj.
      destruct (decide (j = k)) as [->|Hne].
      * rewrite list_lookup_insert_eq in Hx by by eapply lookup_lt_Some.
        by injection Hx as <-.
      * rewrite list_lookup_insert_ne in Hx by done. by apply (Hall j).
    + split; [done|]. split; [done|].
      intros j x Hx Hj. rewrite length_insert in Hj.
      destruct (decide (j = k)) as [->|Hne].
      * rewrite list_lookup_insert_eq in Hx by by eapply lookup_lt_Some.
        by injection Hx as <-.
      * rewrite list_lookup_insert_ne in Hx by done. by apply (Hall j).
Qed.

(** X15: with [--workers 1] the batch is a plain loop.  Whatever the
    schedule, the tasks are called one at a time in the order of the list
    and return in that order, and when the loop has ended the world is the
    one a sequential run of the task over the items gives, followed by the
    closing notice. *)
Theorem one_worker_is_sequential (w0 : W) (s : State) :
  rtc step (init items w0) s ->
  invoked s = seq 0 (length (invoked s)) /\
  completed s = seq 0 (length (completed s)) /\
  in_flight s <= 1 /\
  (main s = AtEnd ->
   world s = notice (foldl (fun w item => task item w) w0 items)).
Proof.
  intros Hs. destruct (in_order_reachable w0 s Hs) as (Hi & Hc & _).
  pose proof (invariant_reachable task notice items 1 w0 s ltac:(lia) Hs)
    as Hinv.
  split; [done|]. split; [done|]. split.
  { pose proof (in_flight_bound _ _ _ _ _ _ Hinv). lia. }
  intros E.
  destruct (at_end _ _ _ _ _ _ Hinv E) as (_ & _ & _ & Hperm & Hworld).
  apply Permutation_length in Hperm. rewrite length_seq in Hperm.
  rewrite Hworld, Hc, Hperm, effects_in_order by done.
  by rewrite firstn_all.
Qed.

End Sequential.
End OrchestratorMore.

(** ** The fan-out loop on concrete runs, and whole commands *)

Lemma quiet_at_end_witness :
  let task := fun (item : string) (w : list string) => w ++ [item] in
  let notice := fun w : list string => w ++ ["all done"] in
  let s := Orchestrator.run task notice 2 40
             (Orchestrator.init ["a"; "b"; "c"] []) in
  Orchestrator.slots s = 0 /\ Orchestrator.waiting s = 0%Z.
Proof.
  intros task notice s.
  destruct (OrchestratorMore.quiet_at_end task notice ["a"; "b"; "c"] 2 [] s)
    as (Hslots & Hwait & _);
    [lia | apply OrchestratorFacts.run_sound | reflexivity |].
  split; [exact Hslots | exact Hwait].
Defined.

Lemma deferred_calls_go_through_witness :
  let task := fun (item : string) (w : list string) => w ++ [item] in
  let notice := fun w : list string => w ++ ["all done"] in
  let s := Orchestrator.run task notice 1 6 (Orchestrator.init ["a"; "b"] []) in
  Orchestrator.workers s !! 0 = Some ("a", Orchestrator.TaskReturned) /\
  1 <= Orchestrator.slots s.
Proof.
  intros task notice s.
  destruct (OrchestratorMore.deferred_calls_go_through task notice ["a"; "b"] 1
              [] s 0 "a")
    as (_ & Hrel & _); [lia | apply OrchestratorFacts.run_sound |].
  split; [reflexivity|]. apply Hrel. reflexivity.
Defined.

Lemma calls_in_flight_witness :
  let task := fun (item : string) (w : list string) => w ++ [item] in
  let notice := fun w : list string => w ++ ["all done"] in
  let s := Orchestrator.run task notice 2 8
             (Orchestrator.init ["a"; "b"; "c"] []) in
  Orchestrator.in_flight s + length (Orchestrator.completed s)
  = length (Orchestrator.invoked s).
Proof.
  intros task notice s.
  apply (OrchestratorMore.calls_in_flight task notice ["a"; "b"; "c"] 2 [] s);
    [lia | apply OrchestratorFacts.run_sound].
Defined.

Lemma started_in_order_witness :
  let task := fun (item : string) (w : list string) => w ++ [item] in
  let notice := fun w : list string => w ++ ["all done"] in
  let s := Orchestrator.run task notice 2 8
             (Orchestrator.init ["a"; "b"; "c"] []) in
  ["a"; "b"; "c"]
  = (fst <$> Orchestrator.workers s) ++ Orchestrator.todo (Orchestrator.main s).
Proof.
  intros task notice s.
  apply (OrchestratorMore.started_in_order task notice ["a"; "b"; "c"] 2 [] s);
    [lia | apply OrchestratorFacts.run_sound].
Defined.

Lemma one_worker_is_sequential_witness :
  let task := fun (item : string) (w : list string) => w ++ [item] in
  let notice := fun w : list string => w ++ ["all done"] in
  let s := Orchestrator.run task notice 1 40
             (Orchestrator.init ["a"; "b"; "c"] []) in
  Orchestrator.world s = ["a"; "b"; "c"; "all done"].
Proof.
  intros task notice s.
  destruct (OrchestratorMore.one_worker_is_sequential task notice
              ["a"; "b"; "c"] [] s)
    as (_ & _ & _ & Hend); [apply OrchestratorFacts.run_sound|].
  apply Hend. reflexivity.
Defined.

(** X17: a whole [runBackup] or [runRestore] with one worker.  If the
    command reaches its loop and the loop has ended, the world is the one
    obtained by running the pipeline on the resolved items one after the
    other in their order, starting from the world the prologue left (for
    backup, with the directory made), and then printing the closing
    notice: the outcome does not depend on the schedule. *)
Theorem one_worker_commands (cfg : Config.t) (env : Env) (flags : Flags)
    (args : list string) (w : World) (s0 s : Orchestrator.State) :
  Config.MaxWorkers cfg = 1%Z ->
  Orchestrator.main s = Orchestrator.AtEnd ->
  (runBackup_start cfg env flags args w = Some s0 ->
   rtc (runBackup_step cfg env) s0 s ->
   exists names,
     resolveInput env flags args w = (Ok names, w) /\ names <> [] /\
     Orchestrator.world s =
       say AllBackupsCompleted
         (foldl (fun w imageName => backupTask cfg env imageName w)
            (mkWorld (fs w) (ticks w)
               (trace w ++ [MkdirAll (Config.BackupDir cfg)]))
            names)) /\
  (runRestore_start env flags args w = Some s0 ->
   rtc (runRestore_step cfg env) s0 s ->
   exists names,
     resolveInput env flags args w = (Ok names, w) /\ names <> [] /\
     Orchestrator.world s =
       say AllRestoresCompleted
         (foldl (fun w tarballPath => restoreTask cfg env tarballPath w) w names)).
Proof.
  intros Hone E. unfold runBackup_step, runRestore_step. rewrite Hone. split.
  - intros (names & Hr & Hne & _ & _ & ->)%runBackup_start_iff Hs.
    exists names. split; [done|]. split; [done|].
    assert (0 <= 1)%Z as H01 by lia.
    pose proof (OrchestratorFacts.invariant_reachable _ _ _ _ _ _ H01 Hs)
      as Hinv.
    destruct (OrchestratorMore.in_order_reachable _ _ _ _ _ Hs) as (_ & Hc & _).
    destruct (OrchestratorFacts.at_end _ _ _ _ _ _ Hinv E)
      as (_ & _ & _ & Hperm & Hworld).
    apply Permutation_length in Hperm. rewrite length_seq in Hperm.
    rewrite Hworld, Hc, Hperm, OrchestratorMore.effects_in_order by done.
    by rewrite firstn_all.
  - intros (names & Hr & Hne & ->)%runRestore_start_iff Hs.
    exists names. split; [done|]. split; [done|].
    assert (0 <= 1)%Z as H01 by lia.
    pose proof (OrchestratorFacts.invariant_reachable _ _ _ _ _ _ H01 Hs)
      as Hinv.
    destruct (OrchestratorMore.in_order_reachable _ _ _ _ _ Hs) as (_ & Hc & _).
    destruct (OrchestratorFacts.at_end _ _ _ _ _ _ Hinv E)
      as (_ & _ & _ & Hperm & Hworld).
    apply Permutation_length in Hperm. rewrite length_seq in Hperm.
    rewrite Hworld, Hc, Hperm, OrchestratorMore.effects_in_order by done.
    by rewrite firstn_all.
Qed.

Lemma one_worker_commands_witness :
  let archive := "docker-backups/demo_1.0-20230615-120530.tar.gz" in
  let cfg := Config.mk "docker-backups" 1 false "gzip" in
  let env := sample_env archive false DirNotExist in
  let s0 := Orchestrator.init ["ghost:0"; "demo:1.0"]
              (mkWorld ∅ 0 [MkdirAll "docker-backups"]) in
  let s := Orchestrator.run (backupTask cfg env) (say AllBackupsCompleted) 1 40
             s0 in
  reports (trace (Orchestrator.world s)) = [ErrorInspecting "ghost:0"] /\
  commands (trace (Orchestrator.world s))
  = [Command "sh" ["-c"; "docker save demo:1.0 | gzip > " +:+ archive]].
Proof.
  intros archive cfg env s0 s.
  destruct (one_worker_commands cfg env (mkFlags "" false)
              ["ghost:0"; "demo:1.0"] (sample_world ∅) s0 s eq_refl)
    as [Hbackup _]; [by vm_compute|].
  destruct Hbackup as (names & Hr & _ & Hworld);
    [reflexivity | apply OrchestratorFacts.run_sound |].
  injection Hr as <-. rewrite Hworld. split; by vm_compute.
Defined.
